(** * mongo_ros: connection bootstrap of the warehouse

    A shallow embedding of [src/mongo_ros.cpp]: the parameter getters
    ([getParam], [getHost], [getPort], [getName], [getUser],
    [getAuthenticate], [getPwd]), the retry loop of [makeDbConnection],
    the two [dropDatabase] overloads and [messageType].

    The code talks to three collaborators that are not part of the
    repository: the ROS parameter server and clock, and the MongoDB C++
    driver.  They are modelled as an explicit world that the code threads
    through its calls, together with an environment that fixes what every
    call of a collaborator answers. *)

From stdpp Require Import gmap strings pretty.
From Stdlib Require Import ZArith Lia.

Local Open Scope string_scope.
Local Open Scope list_scope.
Local Open Scope Z_scope.

(** ** Exceptions and results of a call *)

(** Exceptions of the driver.  [ConnectException] is the one class the
    retry loop catches; [DBException] stands for every other class of the
    driver, with its error code. *)
Inductive mongo_exception : Type :=
| ConnectException
| DBException (code : Z).

Inductive exception : Type :=
| Mongo (e : mongo_exception)
| DbConnectException.

(** Undefined behaviour: a member call through an empty [shared_ptr], or
    through a handle that designates no object. *)
Inductive undefined : Type := NullDeref | Dangling.

(** How a call ends: it returns a value, leaves by an exception, runs
    into undefined behaviour, or (the model only) has not finished within
    the given number of loop iterations. *)
Inductive outcome (A : Type) : Type :=
| Val (a : A)
| Exc (e : exception)
| Undef (u : undefined)
| Unfinished.
Arguments Val {A} a.
Arguments Exc {A} e.
Arguments Undef {A} u.
Arguments Unfinished {A}.

(** ** The world *)

Inductive severity : Type := Debug | Info | Error.

(** A BSON document is a list of named elements, in order. *)
Inductive BSONElement : Type :=
| BString (s : string)
| BInt (i : Z)
| BBool (b : bool).

Abbreviation BSONObj := (list (string * BSONElement)).

#[export] Instance BSONElement_eq_dec : EqDecision BSONElement.
Proof. solve_decision. Defined.

(** What the code does to its collaborators, in program order. *)
Inductive event : Type :=
| Log (lvl : severity) (logger : string) (msg : string)
| ParamLookup (key : string)
| NewConnection (c : nat)
| Connect (c : nat) (address : string)
| Auth (c : nat) (db user pwd : string)
| Sleep (ns : Z)
| DropDatabase (c : nat) (db : string)
| Query (c : nat) (ns : string) (filter : BSONObj).

(** A [mongo::DBClientConnection] object, as far as this file can observe
    it: the address it was asked to connect to and what [isFailed()]
    answers. *)
Record DBClientConnection : Type := {
  server : string;
  failed : bool
}.

(** [clock] is [ros::WallTime::now()] in nanoseconds; [allocated] counts
    the connection objects created so far, and so numbers the passes of
    the retry loop; [heap] holds the connection objects by number (an
    object is never removed: destruction is not modelled); [trace] is the
    list of events so far, oldest first. *)
Record World : Type := {
  clock : Z;
  allocated : nat;
  heap : gmap nat DBClientConnection;
  trace : list event
}.

Definition M (A : Type) : Type := World → outcome A * World.

Definition ret {A} (a : A) : M A := λ w, (Val a, w).

Definition bind {A B} (m : M A) (k : A → M B) : M B :=
  λ w, match m w with
       | (Val a, w') => k a w'
       | (Exc e, w') => (Exc e, w')
       | (Undef u, w') => (Undef u, w')
       | (Unfinished, w') => (Unfinished, w')
       end.

Notation "x <~ m ; k" := (bind m (λ x, k))
  (at level 20, m at level 100, k at level 200, right associativity,
   format "'[' x  <~  m ; '/' k ']'").
Notation "m ;; k" := (bind m (λ _, k))
  (at level 100, k at level 200, right associativity).

Definition throw {A} (e : exception) : M A := λ w, (Exc e, w).

(** [try m catch (mongo::ConnectException&) handler]. *)
Definition catch_ConnectException {A} (m handler : M A) : M A :=
  λ w, match m w with
       | (Exc (Mongo ConnectException), w') => handler w'
       | r => r
       end.

Definition add_trace (tr : list event) (w : World) : World :=
  {| clock := clock w; allocated := allocated w;
     heap := heap w; trace := trace w ++ tr |}.

Definition emit (e : event) : M unit := λ w, (Val tt, add_trace [e] w).

Definition advance (ns : Z) (w : World) : World :=
  {| clock := clock w + ns; allocated := allocated w;
     heap := heap w; trace := trace w |}.

Definition elapse (ns : Z) : M unit := λ w, (Val tt, advance ns w).

Definition ROS_LOG (lvl : severity) (logger msg : string) : M unit :=
  emit (Log lvl logger msg).

(** ** The parameter server *)

Inductive XmlRpcValue : Type :=
| XString (s : string)
| XInt (i : Z)
| XBool (b : bool).

(** A node handle is the view of the parameter server it gives. *)
Abbreviation NodeHandle := (gmap string XmlRpcValue).

(** The types [P] that [getParam<P>] is used at: how a stored value is
    read at that type, and how [operator<<] prints it. *)
Class ParamType (P : Type) : Type := {
  from_xml : XmlRpcValue → option P;
  shown : P → string
}.

#[export] Instance string_param : ParamType string := {|
  from_xml v := match v with XString s => Some s | _ => None end;
  shown s := s
|}.

#[export] Instance int_param : ParamType Z := {|
  from_xml v := match v with XInt i => Some i | _ => None end;
  shown i := pretty i
|}.

#[export] Instance bool_param : ParamType bool := {|
  from_xml v := match v with XBool b => Some b | _ => None end;
  shown b := if b then "1" else "0"
|}.

(** [nh.param(name, val, default_val)]: the stored value when there is
    one of the right type, the default otherwise. *)
Definition nh_param `{ParamType P} (nh : NodeHandle) (name : string)
    (default_val : P) : M P :=
  emit (ParamLookup name) ;;
  ret (default default_val (nh !! name ≫= from_xml)).

(** Get a parameter, with default values *)
Definition getParam `{ParamType P} (nh : NodeHandle) (name : string)
    (default_val : P) : M P :=
  val <~ nh_param nh name default_val;
  ROS_LOG Debug "init"
    ("Initialized " +:+ name +:+ " to " +:+ shown val +:+
     " (default was " +:+ shown default_val +:+ ")") ;;
  ret val.

(** A pointer converts to [bool] as "is not null"; a string literal is an
    array of [char] and decays to a pointer to its first element. *)
Inductive pointer (A : Type) : Type := null | address_of (a : A).
Arguments null {A}.
Arguments address_of {A} a.

Definition bool_of_pointer {A} (p : pointer A) : bool :=
  match p with null => false | address_of _ => true end.

Definition literal (s : string) : pointer string := address_of s.

Definition getHost (nh : NodeHandle) (host : string) : M string :=
  if decide (host = "")
  then getParam nh "warehouse_host" "localhost"
  else ret host.

Definition getPort (nh : NodeHandle) (port : Z) : M Z :=
  if decide (port = 0)
  then getParam nh "warehouse_port" 27017
  else ret port.

Definition getName (nh : NodeHandle) (name : string) : M string :=
  if decide ("" = name)
  then getParam nh "warehouse_database_name" ""
  else ret name.

Definition getUser (nh : NodeHandle) (user : string) : M string :=
  if decide ("" = user)
  then getParam nh "warehouse_user" ""
  else ret user.

(** The default handed to [getParam<bool>] is the literal [""], which the
    [const bool&] parameter receives through the pointer conversion. *)
Definition getAuthenticate (nh : NodeHandle) (authenticate : bool) : M bool :=
  if decide (false = authenticate)
  then getParam nh "warehouse_authenticate" (bool_of_pointer (literal ""))
  else ret authenticate.

Definition getPwd (nh : NodeHandle) (pwd : string) : M string :=
  if decide ("" = pwd)
  then getParam nh "warehouse_pwd" ""
  else ret pwd.

(** ** The clock, the process flag and the driver *)

(** Time is wall time in nanoseconds.  Only three things move the clock:
    a [connect], an [auth] and a sleep.  The first two take what the
    environment says, never less than nothing, so the clock does not go
    back; a sleep takes what it was asked for.  Reading the clock,
    looking up a parameter and logging take no time. *)

(** The [float] timeout.  The code does two things with it: it streams it
    to the log and it converts it to a [ros::WallDuration]; a value is
    given by the results of both. *)
Record float : Type := {
  float_shown : string;
  float_ns : Z
}.

(** What the driver does with one connection object: how long [connect]
    and [auth] take (nanoseconds of wall time), whether they throw, what
    [auth] answers, and what [isFailed()] says after each of them. *)
Record Attempt : Type := {
  connect_cost : N;
  connect_throws : option mongo_exception;
  connect_failed : bool;
  auth_cost : N;
  auth_throws : option mongo_exception;
  auth_ok : bool;
  auth_err : string;
  auth_failed : bool
}.

(** [ros_ok k] is what [ros::ok()] answers once [k] connection objects
    have been created; [driver c] is the fate of object number [c];
    [global_params] is what a default-constructed [ros::NodeHandle] sees;
    [documents] is what the server stores, by namespace. *)
Record Env : Type := {
  ros_ok : nat → bool;
  driver : nat → Attempt;
  global_params : gmap string XmlRpcValue;
  documents : gmap string (list BSONObj)
}.

(** One second, in nanoseconds. *)
Definition second : Z := 1000000000.

Definition WallTime_now : M Z := λ w, (Val (clock w), w).

Definition ros_ok_call (env : Env) : M bool :=
  λ w, (Val (ros_ok env (allocated w)), w).

(** [ros::Duration(d).sleep()] *)
Definition Duration_sleep (ns : Z) : M unit :=
  emit (Sleep ns) ;; elapse ns.

(** The driver writes object [c]. *)
Definition store (c : nat) (o : DBClientConnection) : M unit :=
  λ w, (Val tt, {| clock := clock w; allocated := allocated w;
                   heap := <[c := o]> (heap w); trace := trace w |}).

(** The driver sets or clears the failed flag of object [c]. *)
Definition set_failed (c : nat) (f : bool) : M unit :=
  λ w, (Val tt, {| clock := clock w; allocated := allocated w;
                   heap := alter (λ o, {| server := server o; failed := f |})
                             c (heap w);
                   trace := trace w |}).

(** [conn.reset(new mongo::DBClientConnection())] *)
Definition new_DBClientConnection : M nat :=
  λ w, let c := allocated w in
       (Val c, {| clock := clock w; allocated := S c;
                  heap := <[c := {| server := ""; failed := false |}]> (heap w);
                  trace := trace w ++ [NewConnection c] |}).

Definition raise_if {A} (e : option mongo_exception) (a : A) : M A :=
  match e with
  | Some e => throw (Mongo e)
  | None => ret a
  end.

(** [c->connect(address)] *)
Definition connect (env : Env) (c : nat) (address : string) : M unit :=
  let a := driver env c in
  emit (Connect c address) ;;
  elapse (Z.of_N (connect_cost a)) ;;
  store c {| server := address; failed := connect_failed a |} ;;
  raise_if (connect_throws a) tt.

(** [c->auth(db, user, pwd, err)]: the answer and the text left in [err]. *)
Definition auth (env : Env) (c : nat) (db user pwd : string)
    : M (bool * string) :=
  let a := driver env c in
  emit (Auth c db user pwd) ;;
  elapse (Z.of_N (auth_cost a)) ;;
  set_failed c (auth_failed a) ;;
  raise_if (auth_throws a) (auth_ok a, auth_err a).

(** [conn->] on a [shared_ptr] *)
Definition arrow (conn : option nat) : M nat :=
  match conn with
  | Some c => ret c
  | None => λ w, (Undef NullDeref, w)
  end.

(** [c->isFailed()] *)
Definition isFailed (c : nat) : M bool :=
  λ w, match heap w !! c with
       | Some o => (Val (failed o), w)
       | None => (Undef Dangling, w)
       end.

(** ** makeDbConnection *)

(** Conversion of the [unsigned] port to the [int] that [getPort] takes. *)
Definition int_of_unsigned (u : Z) : Z :=
  let v := u mod 2 ^ 32 in
  if v <? 2 ^ 31 then v else v - 2 ^ 32.

Definition newline : string := String (Ascii.ascii_of_nat 10) "".

(** The statements between the braces of [try]. *)
Definition try_block (env : Env) (c : nat)
    (db_address db_name db_user db_pwd : string) (db_authenticate : bool)
    : M bool :=
  ROS_LOG Debug "init" ("Connecting to db at " +:+ db_address) ;;
  connect env c db_address ;;
  (if db_authenticate
   then
     ROS_LOG Info "" "Authing" ;;
     r <~ auth env c db_name db_user db_pwd;
     if negb r.1
     then ROS_LOG Error "" ("Mongo authentication failed " +:+ r.2)
     else ret tt
   else ret tt) ;;
  f <~ isFailed c;
  if negb f
  then ROS_LOG Info "" "connected" ;; ret true
  else ret false.

(** The loop test: [ros::ok() && ros::WallTime::now() < end]. *)
Definition loop_test (env : Env) (end_ : Z) : M bool :=
  ok <~ ros_ok_call env;
  if ok
  then now <~ WallTime_now; ret (bool_decide (now < end_))
  else ret false.

(** The [while] loop.  The result of the [try] statement is [true] when
    the body left the loop by [break].  [conn] is the [shared_ptr] as the
    loop found it; the result is the [shared_ptr] as the loop leaves it. *)
Fixpoint retry_loop (fuel : nat) (env : Env)
    (db_address db_name db_user db_pwd : string) (db_authenticate : bool)
    (end_ : Z) (conn : option nat) : M (option nat) :=
  match fuel with
  | O => λ w, (Unfinished, w)
  | S fuel =>
      go <~ loop_test env end_;
      if go
      then
        c <~ new_DBClientConnection;
        brk <~ catch_ConnectException
                 (try_block env c db_address db_name db_user db_pwd
                    db_authenticate)
                 (Duration_sleep second ;; ret false);
        if brk
        then ret (Some c)
        else retry_loop fuel env db_address db_name db_user db_pwd
               db_authenticate end_ (Some c)
      else ret conn
  end.

(** The statements after the loop. *)
Definition after_loop (end_ : Z) (conn : option nat) : M nat :=
  c <~ arrow conn;
  f <~ isFailed c;
  late <~ (if f
           then ret true
           else now <~ WallTime_now; ret (bool_decide (now > end_)));
  if late
  then throw DbConnectException
  else
    ROS_LOG Debug "init" "Successfully connected to db" ;;
    ret c.

(** The loop and the statements after it. *)
Definition loop_and_check (fuel : nat) (env : Env)
    (db_address db_name db_user db_pwd : string) (db_authenticate : bool)
    (end_ : Z) (conn : option nat) : M nat :=
  conn' <~ retry_loop fuel env db_address db_name db_user db_pwd
             db_authenticate end_ conn;
  after_loop end_ conn'.

Definition ROS_INFO (msg : string) : M unit := ROS_LOG Info "" msg.

(** The getters and the log lines before the loop: the address, whether
    to authenticate, and the name, user and password to authenticate
    with. *)
Definition resolve_settings (nh : NodeHandle) (host : string) (port : Z)
    (timeout : float) (name : string) (authenticate : bool)
    (user pwd : string) : M (string * bool * string * string * string) :=
  db_host <~ getHost nh host;
  db_port <~ getPort nh (int_of_unsigned port);
  db_authenticate <~ getAuthenticate nh authenticate;
  db_name <~ getName nh name;
  db_user <~ getUser nh user;
  db_pwd <~ getPwd nh pwd;
  ROS_INFO (newline +:+ newline) ;;
  ROS_INFO ("Timout " +:+ float_shown timeout) ;;
  ROS_INFO ("Port " +:+ shown db_port) ;;
  ROS_INFO ("Host " +:+ db_host) ;;
  ROS_INFO ("User " +:+ db_user) ;;
  ROS_INFO ("Pwd " +:+ db_pwd) ;;
  ROS_INFO ("Name " +:+ db_name) ;;
  ROS_INFO ("Auth " +:+ shown db_authenticate) ;;
  ret (db_host +:+ ":" +:+ shown db_port, db_authenticate,
       db_name, db_user, db_pwd).

Definition makeDbConnection (fuel : nat) (env : Env) (nh : NodeHandle)
    (host : string) (port : Z) (timeout : float) (name : string)
    (authenticate : bool) (user pwd : string) : M nat :=
  s <~ resolve_settings nh host port timeout name authenticate user pwd;
  let '(db_address, db_authenticate, db_name, db_user, db_pwd) := s in
  start <~ WallTime_now;
  let end_ := start + float_ns timeout in
  loop_and_check fuel env db_address db_name db_user db_pwd db_authenticate
    end_ None.

(** ** dropDatabase *)

(** [makeDbConnection] is called with four arguments: the other four come
    from the default arguments of its declaration in [mongo_ros.h], which
    is not among the sources at hand.  They are a parameter here. *)
Record Defaults : Type := {
  default_name : string;
  default_authenticate : bool;
  default_user : string;
  default_pwd : string
}.

(** [c->dropDatabase(db)] *)
Definition driver_dropDatabase (c : nat) (db : string) : M unit :=
  emit (DropDatabase c db).

(** [void dropDatabase (db, host, port, timeout)] *)
Definition dropDatabase4 (fuel : nat) (env : Env) (d : Defaults)
    (db host : string) (port : Z) (timeout : float) : M unit :=
  let nh := global_params env in
  c <~ makeDbConnection fuel env nh host port timeout
         (default_name d) (default_authenticate d)
         (default_user d) (default_pwd d);
  driver_dropDatabase c db.

Definition float_60 : float :=
  {| float_shown := "60"; float_ns := 60 * second |}.

(** [void dropDatabase (db_name)] *)
Definition dropDatabase (fuel : nat) (env : Env) (d : Defaults)
    (db_name : string) : M unit :=
  dropDatabase4 fuel env d db_name "" 0 float_60.

(** ** messageType *)

(** [obj.getField(name)]: the first element of that name. *)
Fixpoint getField (obj : BSONObj) (name : string) : option BSONElement :=
  match obj with
  | [] => None
  | (k, v) :: rest => if decide (k = name) then Some v else getField rest name
  end.

(** [obj.getStringField(name)]: the empty string unless the element is
    there and is a string. *)
Definition getStringField (obj : BSONObj) (name : string) : string :=
  match getField obj name with
  | Some (BString s) => s
  | _ => ""
  end.

(** A document matches a filter when it has every element of the filter,
    with an equal value. *)
Definition matches (filter obj : BSONObj) : bool :=
  forallb (λ kv, bool_decide (getField obj kv.1 = Some kv.2)) filter.

(** [conn.query(ns, filter)]: a cursor over the matching documents of the
    namespace, in the order of the store. *)
Definition query (env : Env) (c : nat) (ns : string) (filter : BSONObj)
    : M (list BSONObj) :=
  emit (Query c ns filter) ;;
  ret (List.filter (matches filter) (default [] (documents env !! ns))).

(** The code of the driver's assertion that a cursor has a next
    document. *)
Definition cursor_exhausted : Z := 13422.

(** [cursor->next()] *)
Definition cursor_next (cursor : list BSONObj) : M BSONObj :=
  match cursor with
  | obj :: _ => ret obj
  | [] => throw (Mongo (DBException cursor_exhausted))
  end.

Definition messageType (env : Env) (conn : nat) (db coll : string)
    : M string :=
  let ns := db +:+ ".ros_message_collections" in
  cursor <~ query env conn ns [("name", BString coll)];
  obj <~ cursor_next cursor;
  ret (getStringField obj "type").

(** ** Worlds and environments to run the code in *)

Definition boot (t : Z) : World :=
  {| clock := t; allocated := 0%nat; heap := ∅; trace := [] |}.

(** The driver connects at once and authenticates. *)
Definition reachable : Attempt :=
  {| connect_cost := 0; connect_throws := None; connect_failed := false;
     auth_cost := 0; auth_throws := None; auth_ok := true; auth_err := "";
     auth_failed := false |}.

(** Nobody listens at the address: [connect] throws at once and leaves
    the object failed. *)
Definition unreachable : Attempt :=
  {| connect_cost := 0; connect_throws := Some ConnectException;
     connect_failed := true;
     auth_cost := 0; auth_throws := None; auth_ok := false; auth_err := "";
     auth_failed := true |}.

Definition running (env_driver : nat → Attempt) : Env :=
  {| ros_ok := λ _, true; driver := env_driver;
     global_params := ∅; documents := ∅ |}.

Definition seconds (n : Z) : float :=
  {| float_shown := pretty n; float_ns := n * second |}.

(** The server answers, but [connect] takes three seconds. *)
Definition slow : Attempt :=
  {| connect_cost := 3000000000; connect_throws := None;
     connect_failed := false;
     auth_cost := 0; auth_throws := None; auth_ok := true; auth_err := "";
     auth_failed := false |}.

(** Nobody listens, and it takes ten seconds to find out: [connect]
    throws after that time and leaves the object failed. *)
Definition slow_refusal : Attempt :=
  {| connect_cost := 10000000000; connect_throws := Some ConnectException;
     connect_failed := true;
     auth_cost := 0; auth_throws := None; auth_ok := false; auth_err := "";
     auth_failed := true |}.

(** [connect] throws at once and does not mark the object failed. *)
Definition refusal_unmarked : Attempt :=
  {| connect_cost := 0; connect_throws := Some ConnectException;
     connect_failed := false;
     auth_cost := 0; auth_throws := None; auth_ok := false; auth_err := "";
     auth_failed := false |}.

(** The server answers and refuses the credentials. *)
Definition refusing (cost : N) : Attempt :=
  {| connect_cost := cost; connect_throws := None; connect_failed := false;
     auth_cost := 0; auth_throws := None; auth_ok := false;
     auth_err := "auth fails"; auth_failed := false |}.

(** Two fates of a connection object that differ at most in what [auth]
    answers. *)
Definition same_but_auth_answer (a a' : Attempt) : Prop :=
  connect_cost a = connect_cost a' ∧
  connect_throws a = connect_throws a' ∧
  connect_failed a = connect_failed a' ∧
  auth_cost a = auth_cost a' ∧
  auth_throws a = auth_throws a' ∧
  auth_failed a = auth_failed a'.

Definition same_but_auth_answers (env env' : Env) : Prop :=
  (∀ k, ros_ok env k = ros_ok env' k) ∧
  (∀ c, same_but_auth_answer (driver env c) (driver env' c)).

(** Two worlds that differ at most in what has been logged. *)
Definition same_but_trace (w w' : World) : Prop :=
  clock w = clock w' ∧ allocated w = allocated w' ∧ heap w = heap w'.

(** Two computations that cannot be told apart but by the log: run in
    worlds that differ at most in the log, they end in the same way and
    leave worlds that differ at most in the log. *)
Definition alike {A} (m m' : M A) : Prop :=
  ∀ w w', same_but_trace w w' →
    (m w).1 = (m' w').1 ∧ same_but_trace (m w).2 (m' w').2.

(** The number of drop-database commands in a trace. *)
Definition is_drop (e : event) : bool :=
  match e with DropDatabase _ _ => true | _ => false end.

Definition drops (tr : list event) : nat := length (List.filter is_drop tr).

(** A computation that sends no drop-database command. *)
Definition drops_nothing {A} (m : M A) : Prop :=
  ∀ w, drops (trace (m w).2) = drops (trace w).

(** A metadata store with one collection registered. *)
Definition one_collection : gmap string (list BSONObj) :=
  {[ "db.ros_message_collections" :=
       [ [("name", BString "poses"); ("type", BString "geometry_msgs/Pose")];
         [("name", BString "scans"); ("type", BString "sensor_msgs/LaserScan")] ] ]}.

(** The last connection object created in a world is there and is not
    failed. *)
Definition holds_connection (w : World) : Prop :=
  ∃ c o, allocated w = S c ∧ heap w !! c = Some o ∧ failed o = false.

#[export] Instance severity_eq_dec : EqDecision severity.
Proof. solve_decision. Defined.

#[export] Instance event_eq_dec : EqDecision event.
Proof. solve_decision. Defined.

(** The number of events of a trace that satisfy [p], and the events
    that are told apart below. *)
Definition count_events (p : event → bool) (tr : list event) : nat :=
  length (List.filter p tr).

Definition is_sleep (e : event) : bool :=
  match e with Sleep _ => true | _ => false end.

Definition is_auth (e : event) : bool :=
  match e with Auth _ _ _ _ => true | _ => false end.

Definition is_connect (e : event) : bool :=
  match e with Connect _ _ => true | _ => false end.

Definition is_new (e : event) : bool :=
  match e with NewConnection _ => true | _ => false end.

(** An event that is a log line or a parameter lookup. *)
Definition is_note (e : event) : bool :=
  match e with Log _ _ _ | ParamLookup _ => true | _ => false end.

(** A computation that adds no event satisfying [p] to the trace. *)
Definition emits_no {A} (p : event → bool) (m : M A) : Prop :=
  ∀ w, count_events p (trace (m w).2) = count_events p (trace w).

(** A computation that takes nothing back from the trace: whatever is
    counted, there is no less of it afterwards. *)
Definition grows {A} (m : M A) : Prop :=
  ∀ p w, (count_events p (trace w) ≤ count_events p (trace (m w).2))%nat.

(** The fields of what [resolve_settings] returns. *)
Definition settings_address (s : string * bool * string * string * string)
    : string := s.1.1.1.1.

Definition settings_authenticate
    (s : string * bool * string * string * string) : bool := s.1.1.1.2.

(** A computation that only writes to the trace: it returns, and leaves
    the clock and the connection objects as they are. *)
Definition quiet {A} (m : M A) : Prop :=
  ∀ w, ∃ a tr, m w = (Val a, add_trace tr w).

(** * Properties *)

(** ** The monad *)

Lemma add_trace_nil w : add_trace [] w = w.
Proof. destruct w; unfold add_trace; simpl. by rewrite app_nil_r. Qed.

Lemma add_trace_app tr1 tr2 w :
  add_trace tr2 (add_trace tr1 w) = add_trace (tr1 ++ tr2) w.
Proof. unfold add_trace; simpl. by rewrite app_assoc. Qed.

Lemma bind_Val {A B} (m : M A) (k : A → M B) w a w1 :
  m w = (Val a, w1) → bind m k w = k a w1.
Proof. unfold bind. by intros ->. Qed.

Lemma bind_Exc {A B} (m : M A) (k : A → M B) w e w1 :
  m w = (Exc e, w1) → bind m k w = (Exc e, w1).
Proof. unfold bind. by intros ->. Qed.

Lemma bind_Val_inv {A B} (m : M A) (k : A → M B) w b w' :
  bind m k w = (Val b, w') →
  ∃ a w1, m w = (Val a, w1) ∧ k a w1 = (Val b, w').
Proof.
  unfold bind. destruct (m w) as [[a|e|u|] w1]; try discriminate.
  intros Hk. by exists a, w1.
Qed.

Lemma quiet_ret {A} (a : A) : quiet (ret a).
Proof. intros w. exists a, []. by rewrite add_trace_nil. Qed.

Lemma quiet_emit e : quiet (emit e).
Proof. intros w. by exists tt, [e]. Qed.

Lemma quiet_bind {A B} (m : M A) (k : A → M B) :
  quiet m → (∀ a, quiet (k a)) → quiet (bind m k).
Proof.
  intros Hm Hk w. destruct (Hm w) as (a & tr1 & Ha).
  destruct (Hk a (add_trace tr1 w)) as (b & tr2 & Hb).
  exists b, (tr1 ++ tr2). rewrite (bind_Val _ _ _ _ _ Ha), Hb.
  by rewrite add_trace_app.
Qed.

Create HintDb quiet.
#[local] Hint Resolve quiet_ret quiet_emit : quiet.
#[local] Hint Extern 2 (quiet (bind _ _)) =>
  apply quiet_bind; [ | intros ? ] : quiet.
#[local] Hint Extern 3 (quiet (if ?b then _ else _)) => destruct b : quiet.

Lemma quiet_getParam `{ParamType P} nh name (default_val : P) :
  quiet (getParam nh name default_val).
Proof. unfold getParam, nh_param, ROS_LOG. auto 10 with quiet. Qed.

#[local] Hint Resolve quiet_getParam : quiet.

Lemma quiet_resolve_settings nh host port timeout name authenticate user pwd :
  quiet (resolve_settings nh host port timeout name authenticate user pwd).
Proof.
  unfold resolve_settings, getHost, getPort, getAuthenticate, getName,
    getUser, getPwd, ROS_INFO, ROS_LOG.
  repeat (apply quiet_bind; [ auto with quiet | intros ? ]).
  auto with quiet.
Qed.

(** ** The getters *)

(** C4.  An explicit argument that is not the unset value of its type (a
    string that is not empty, a port that is not zero, [true]) is what
    the getter returns, and the world is left as it was: no parameter is
    looked up and nothing is logged, whatever the node handle holds. *)
Theorem explicit_argument_is_returned (nh : NodeHandle) (w : World)
    (host name user pwd : string) (port : Z) :
  host ≠ "" → port ≠ 0 → name ≠ "" → user ≠ "" → pwd ≠ "" →
  getHost nh host w = (Val host, w) ∧
  getPort nh port w = (Val port, w) ∧
  getName nh name w = (Val name, w) ∧
  getUser nh user w = (Val user, w) ∧
  getAuthenticate nh true w = (Val true, w) ∧
  getPwd nh pwd w = (Val pwd, w).
Proof.
  intros Hhost Hport Hname Huser Hpwd.
  unfold getHost, getPort, getName, getUser, getAuthenticate, getPwd.
  repeat case_decide; try congruence.
  repeat split; reflexivity.
Qed.

Lemma explicit_argument_is_returned_witness :
  let nh : NodeHandle := {[ "warehouse_host" := XString "db.example" ]} in
  getHost nh "otherhost" (boot 0) = (Val "otherhost", boot 0) ∧
  getPort nh 5000 (boot 0) = (Val 5000, boot 0) ∧
  getName nh "n" (boot 0) = (Val "n", boot 0) ∧
  getUser nh "u" (boot 0) = (Val "u", boot 0) ∧
  getAuthenticate nh true (boot 0) = (Val true, boot 0) ∧
  getPwd nh "p" (boot 0) = (Val "p", boot 0).
Proof.
  apply (explicit_argument_is_returned
           {[ "warehouse_host" := XString "db.example" ]} (boot 0)
           "otherhost" "n" "u" "p" 5000); discriminate.
Defined.

(** What a getter answers when it falls back on the parameter server. *)
Lemma getParam_result `{ParamType P} nh name (default_val : P) w :
  (getParam nh name default_val w).1
  = Val (default default_val (nh !! name ≫= from_xml)).
Proof. reflexivity. Qed.

(** The five settings whose default is written as a value of their own
    type: with the argument unset and no parameter stored, the getter
    answers that default. *)
Lemma unset_defaults (nh : NodeHandle) (w : World) :
  nh !! "warehouse_host" = None →
  nh !! "warehouse_port" = None →
  nh !! "warehouse_database_name" = None →
  nh !! "warehouse_user" = None →
  nh !! "warehouse_pwd" = None →
  (getHost nh "" w).1 = Val "localhost" ∧
  (getPort nh 0 w).1 = Val 27017 ∧
  (getName nh "" w).1 = Val "" ∧
  (getUser nh "" w).1 = Val "" ∧
  (getPwd nh "" w).1 = Val "".
Proof.
  intros Hh Hp Hn Hu Hw.
  unfold getHost, getPort, getName, getUser, getPwd.
  rewrite !decide_True by done.
  rewrite !getParam_result, Hh, Hp, Hn, Hu, Hw. done.
Qed.

(** With a parameter stored, an unset argument gives the stored value. *)
Lemma unset_configured (nh : NodeHandle) (w : World) (h : string) (b : bool) :
  nh !! "warehouse_host" = Some (XString h) →
  nh !! "warehouse_authenticate" = Some (XBool b) →
  (getHost nh "" w).1 = Val h ∧ (getAuthenticate nh false w).1 = Val b.
Proof.
  intros Hh Ha. unfold getHost, getAuthenticate.
  rewrite !decide_True by done.
  by rewrite !getParam_result, Hh, Ha.
Qed.

(** C3.  [getAuthenticate] with the argument unset ([false]) and no
    [warehouse_authenticate] parameter stored answers [true]: the default
    it hands to [getParam<bool>] is the string literal, and that converts
    to [true].  The setting does not fall back to [false]. *)
Theorem getAuthenticate_unset_answers_true (nh : NodeHandle) (w : World) :
  nh !! "warehouse_authenticate" = None →
  (getAuthenticate nh false w).1 = Val true.
Proof.
  intros Hnone. unfold getAuthenticate.
  rewrite decide_True by done.
  by rewrite getParam_result, Hnone.
Qed.

Lemma getAuthenticate_unset_answers_true_witness :
  (∅ : NodeHandle) !! "warehouse_authenticate" = None ∧
  (getAuthenticate ∅ false (boot 0)).1 = Val true.
Proof.
  split; [ reflexivity | ].
  apply (getAuthenticate_unset_answers_true ∅ (boot 0)). reflexivity.
Defined.

(** ** The retry loop, one pass at a time *)

Section Loop.
Context (env : Env) (db_address db_name db_user db_pwd : string)
        (db_authenticate : bool) (end_ : Z).

Let loop fuel := retry_loop fuel env db_address db_name db_user db_pwd
                   db_authenticate end_.
Let body c := catch_ConnectException
                (try_block env c db_address db_name db_user db_pwd
                   db_authenticate)
                (Duration_sleep second ;; ret false).

Lemma retry_loop_S fuel conn :
  loop (S fuel) conn
  = (go <~ loop_test env end_;
     if go
     then
       c <~ new_DBClientConnection;
       brk <~ body c;
       if brk then ret (Some c) else loop fuel (Some c)
     else ret conn).
Proof. reflexivity. Qed.

Lemma loop_test_false w :
  ros_ok env (allocated w) = false ∨ end_ ≤ clock w →
  loop_test env end_ w = (Val false, w).
Proof.
  intros Hstop. unfold loop_test, bind, ros_ok_call, WallTime_now, ret.
  destruct (ros_ok env (allocated w)); [ | done ].
  destruct Hstop as [? | Hlate]; [ done | ].
  case_bool_decide; [ lia | done ].
Qed.

Lemma loop_test_true w :
  ros_ok env (allocated w) = true → clock w < end_ →
  loop_test env end_ w = (Val true, w).
Proof.
  intros Hok Hearly. unfold loop_test, bind, ros_ok_call, WallTime_now, ret.
  rewrite Hok. case_bool_decide; [ done | lia ].
Qed.

(** The loop test fails: the loop is left with the pointer as it is. *)
Lemma retry_loop_stop fuel conn w :
  ros_ok env (allocated w) = false ∨ end_ ≤ clock w →
  loop (S fuel) conn w = (Val conn, w).
Proof.
  intros Hstop. rewrite retry_loop_S.
  by rewrite (bind_Val _ _ _ _ _ (loop_test_false w Hstop)).
Qed.

(** The loop test holds: a connection object is created and the body
    runs on it. *)
Lemma retry_loop_go fuel conn w :
  ros_ok env (allocated w) = true → clock w < end_ →
  loop (S fuel) conn w
  = (c <~ new_DBClientConnection;
     brk <~ body c;
     if brk then ret (Some c) else loop fuel (Some c)) w.
Proof.
  intros Hok Hearly. rewrite retry_loop_S.
  by rewrite (bind_Val _ _ _ _ _ (loop_test_true w Hok Hearly)).
Qed.

Lemma retry_loop_cases w :
  (ros_ok env (allocated w) = false ∨ end_ ≤ clock w) ∨
  (ros_ok env (allocated w) = true ∧ clock w < end_).
Proof. destruct (ros_ok env (allocated w)); lia. Qed.
End Loop.

(** [makeDbConnection] is the loop and the check after it, run in the
    world the getters leave. *)
Lemma makeDbConnection_unfold fuel env nh host port timeout name authenticate
    user pwd w :
  ∃ db_address db_authenticate db_name db_user db_pwd tr,
    makeDbConnection fuel env nh host port timeout name authenticate user pwd w
    = (conn <~ retry_loop fuel env db_address db_name db_user db_pwd
                 db_authenticate (clock w + float_ns timeout) None;
       after_loop (clock w + float_ns timeout) conn) (add_trace tr w).
Proof.
  destruct (quiet_resolve_settings nh host port timeout name authenticate
              user pwd w) as ([[[[a b] c] d] e] & tr & Hs).
  exists a, b, c, d, e, tr. unfold makeDbConnection.
  rewrite (bind_Val _ _ _ _ _ Hs). reflexivity.
Qed.

(** ** The empty loop *)

(** C6.  When the body of the retry loop never runs, because the timeout
    is zero or negative or because [ros::ok()] is already false, no
    connection object is created, the pointer is still empty at the check
    after the loop, and the call ends in the dereference of that empty
    pointer, not in [DbConnectException]. *)
Theorem empty_loop_dereferences_null fuel env nh host port timeout name
    authenticate user pwd w :
  float_ns timeout ≤ 0 ∨ ros_ok env (allocated w) = false →
  ∃ w', makeDbConnection (S fuel) env nh host port timeout name authenticate
          user pwd w = (Undef NullDeref, w')
        ∧ allocated w' = allocated w ∧ heap w' = heap w.
Proof.
  intros Hempty.
  destruct (makeDbConnection_unfold (S fuel) env nh host port timeout name
              authenticate user pwd w) as (a & b & c & d & e & tr & ->).
  exists (add_trace tr w). split; [ | done ].
  rewrite (bind_Val _ _ _ None (add_trace tr w)); [ done | ].
  apply retry_loop_stop. simpl. destruct Hempty; [ right; lia | by left ].
Qed.

Lemma empty_loop_dereferences_null_witness :
  ∃ w', makeDbConnection 1 (running (λ _, reachable)) ∅ "" 0 (seconds 0)
          "" false "" "" (boot 7) = (Undef NullDeref, w')
        ∧ allocated w' = allocated (boot 7) ∧ heap w' = heap (boot 7).
Proof.
  apply (empty_loop_dereferences_null 0 (running (λ _, reachable)) ∅ "" 0
           (seconds 0) "" false "" "" (boot 7)).
  left. vm_compute. discriminate.
Defined.

(** ** One pass of the loop *)

Section Pass.
Context (env : Env) (db_address db_name db_user db_pwd : string)
        (db_authenticate : bool).

Let block c := try_block env c db_address db_name db_user db_pwd
                 db_authenticate.
Let body c := catch_ConnectException (block c)
                (Duration_sleep second ;; ret false).

(** What the [try] block leaves behind: object [c] has been written,
    the clock has not gone back, and the block either says whether the
    object is usable or leaves by an exception of the driver. *)
Lemma try_block_spec c w :
  ∃ r w' o,
    block c w = (r, w') ∧
    allocated w' = allocated w ∧
    heap w' = <[c := o]> (heap w) ∧
    server o = db_address ∧
    clock w ≤ clock w' ∧
    match r with
    | Val brk => failed o = negb brk
    | Exc (Mongo _) => True
    | _ => False
    end.
Proof.
  unfold block, try_block, connect, auth, isFailed, raise_if, ROS_LOG,
    emit, elapse, advance, store, set_failed, throw, bind, ret; simpl.
  destruct (driver env c) as [cc ct cf ac at_ ao ae af]; simpl.
  destruct ct as [e|], db_authenticate, at_ as [e'|], ao, cf, af; simpl;
    rewrite ?alter_insert_eq, ?lookup_insert_eq; simpl;
    (eexists _, _, _; split; [ reflexivity | ]); simpl;
    rewrite ?insert_insert_eq; repeat split; lia.
Qed.

(** [connect] throws: the block leaves by that exception, with the
    object as [connect] left it. *)
Lemma try_block_connect_throws c w e :
  connect_throws (driver env c) = Some e →
  block c w
  = (Exc (Mongo e),
     {| clock := clock w + Z.of_N (connect_cost (driver env c));
        allocated := allocated w;
        heap := <[c := {| server := db_address;
                          failed := connect_failed (driver env c) |}]>
                  (heap w);
        trace := trace w ++
                 [Log Debug "init" ("Connecting to db at " +:+ db_address);
                  Connect c db_address] |}).
Proof.
  intros Hthrows.
  unfold block, try_block, connect, raise_if, ROS_LOG, emit, elapse,
    advance, store, throw, bind, ret, add_trace; simpl.
  rewrite Hthrows; simpl. by rewrite <- app_assoc.
Qed.

(** The handler: a [ConnectException] that leaves the [try] block is
    caught, the code sleeps one second, and the body does not break. *)
Lemma body_catches c w w1 :
  block c w = (Exc (Mongo ConnectException), w1) →
  body c w = (Val false, advance second (add_trace [Sleep second] w1)).
Proof. intros Hblock. unfold body, catch_ConnectException. by rewrite Hblock. Qed.

(** The whole body of the loop: as the [try] block, but no
    [ConnectException] leaves it. *)
Lemma body_spec c w :
  ∃ r w' o,
    body c w = (r, w') ∧
    allocated w' = allocated w ∧
    heap w' = <[c := o]> (heap w) ∧
    server o = db_address ∧
    clock w ≤ clock w' ∧
    match r with
    | Val true => failed o = false
    | Val false => True
    | Exc (Mongo (DBException _)) => True
    | _ => False
    end.
Proof.
  destruct (try_block_spec c w) as (r & w1 & o & Hb & Ha & Hh & Hs & Hc & Hr).
  destruct r as [brk | [[|code]|] | |]; try done.
  - exists (Val brk), w1, o. unfold body, catch_ConnectException.
    rewrite Hb. repeat split; try done. by destruct brk.
  - exists (Val false), (advance second (add_trace [Sleep second] w1)), o.
    rewrite (body_catches _ _ _ Hb). simpl.
    repeat split; try done. unfold second. lia.
  - exists (Exc (Mongo (DBException code))), w1, o.
    unfold body, catch_ConnectException. by rewrite Hb.
Qed.
End Pass.

(** ** The check after the loop *)

Lemma after_loop_None end_ w : after_loop end_ None w = (Undef NullDeref, w).
Proof. reflexivity. Qed.

Lemma after_loop_Some end_ c w o :
  heap w !! c = Some o →
  after_loop end_ (Some c) w
  = if failed o || bool_decide (clock w > end_)
    then (Exc DbConnectException, w)
    else (Val c, add_trace [Log Debug "init" "Successfully connected to db"] w).
Proof.
  intros Ho. unfold after_loop, arrow, isFailed, WallTime_now, throw, ROS_LOG,
    emit, bind, ret. rewrite Ho.
  destruct (failed o); [ done | ]. simpl. by case_bool_decide.
Qed.

Lemma after_loop_dangling end_ c w :
  heap w !! c = None → after_loop end_ (Some c) w = (Undef Dangling, w).
Proof.
  intros Ho. unfold after_loop, arrow, isFailed, bind, ret. by rewrite Ho.
Qed.

(** ** The loop as a whole *)

Lemma new_DBClientConnection_eq w :
  new_DBClientConnection w
  = (Val (allocated w),
     {| clock := clock w; allocated := S (allocated w);
        heap := <[allocated w := {| server := ""; failed := false |}]> (heap w);
        trace := trace w ++ [NewConnection (allocated w)] |}).
Proof. reflexivity. Qed.

Section LoopInvariant.
Context (env : Env) (db_address db_name db_user db_pwd : string)
        (db_authenticate : bool) (end_ : Z).

Let loop fuel := retry_loop fuel env db_address db_name db_user db_pwd
                   db_authenticate end_.

Lemma new_DBClientConnection_spec w :
  ∃ w0, new_DBClientConnection w = (Val (allocated w), w0) ∧
        allocated w0 = S (allocated w) ∧ clock w0 = clock w ∧
        heap w0 = <[allocated w := {| server := ""; failed := false |}]>
                    (heap w).
Proof. by eexists. Qed.

(** However the loop ends, it does not end in undefined behaviour, in a
    [ConnectException] or in [DbConnectException].  When it is left in
    the ordinary way, either no pass was made and nothing has changed,
    or the pointer designates the object created last. *)
Lemma retry_loop_spec fuel : ∀ conn w,
  ∃ r w',
    loop fuel conn w = (r, w') ∧
    clock w ≤ clock w' ∧
    match r with
    | Val conn' =>
        (conn' = conn ∧ w' = w) ∨
        (∃ c o, conn' = Some c ∧ allocated w' = S c ∧
                (allocated w ≤ c)%nat ∧ heap w' !! c = Some o)
    | Exc (Mongo (DBException _)) => True
    | Unfinished => True
    | _ => False
    end.
Proof.
  induction fuel as [|fuel IH]; intros conn w.
  { exists Unfinished, w. by repeat split. }
  destruct (retry_loop_cases env end_ w) as [Hstop | [Hok Hearly]].
  { exists (Val conn), w. unfold loop.
    rewrite retry_loop_stop by done. repeat split; [ done | by left ]. }
  unfold loop. rewrite retry_loop_go by done.
  destruct (new_DBClientConnection_spec w) as (w0 & Hnew & Ha0 & Hc0 & Hh0).
  rewrite (bind_Val _ _ _ _ _ Hnew).
  destruct (body_spec env db_address db_name db_user db_pwd db_authenticate
              (allocated w) w0) as (r & w1 & o & Hb & Ha & Hh & _ & Hc & Hr).
  destruct r as [[|] | [[|code]|] | |]; try done.
  - rewrite (bind_Val _ _ _ _ _ Hb).
    exists (Val (Some (allocated w))), w1. repeat split; [ lia | ].
    right. exists (allocated w), o. rewrite Hh, lookup_insert_eq.
    repeat split; [ congruence | lia ].
  - rewrite (bind_Val _ _ _ _ _ Hb).
    destruct (IH (Some (allocated w)) w1) as (r2 & w2 & Hl & Hc2 & Hr2).
    exists r2, w2. fold (loop fuel). rewrite Hl. repeat split; [ lia | ].
    destruct r2 as [conn' | [[|code]|] | |]; try done.
    right. destruct Hr2 as [[-> ->] | (c & o' & -> & Ha2 & Hle & Ho')].
    + exists (allocated w), o. rewrite Hh, lookup_insert_eq.
      repeat split; [ congruence | lia ].
    + exists c, o'. repeat split; [ done | lia | done ].
  - rewrite (bind_Exc _ _ _ _ _ Hb).
    exists (Exc (Mongo (DBException code))), w1. repeat split; lia.
Qed.
End LoopInvariant.


(** ** What makeDbConnection answers *)

(** C2.  A handle that [makeDbConnection] returns designates a connection
    object for which [isFailed()] answers [false]. *)
Theorem returned_handle_is_not_failed fuel env nh host port timeout name
    authenticate user pwd w c w' :
  makeDbConnection fuel env nh host port timeout name authenticate user pwd w
  = (Val c, w') →
  ∃ o, heap w' !! c = Some o ∧ failed o = false.
Proof.
  destruct (makeDbConnection_unfold fuel env nh host port timeout name
              authenticate user pwd w) as (a & b & n & u & p & tr & ->).
  intros Hrun. apply bind_Val_inv in Hrun as (conn & w1 & _ & Hafter).
  destruct conn as [c0|]; [ | by rewrite after_loop_None in Hafter ].
  destruct (heap w1 !! c0) as [o|] eqn:Ho;
    [ | by rewrite after_loop_dangling in Hafter ].
  rewrite (after_loop_Some _ _ _ _ Ho) in Hafter.
  destruct (failed o) eqn:Hfailed; [ done | ].
  destruct (bool_decide _); [ done | ]. simpl in Hafter.
  injection Hafter as <- <-. by exists o.
Qed.

Lemma returned_handle_is_not_failed_witness :
  ∃ o, heap (makeDbConnection 1 (running (λ _, reachable)) ∅ "" 0
               (seconds 2) "" false "" "" (boot 0)).2 !! 0%nat = Some o
       ∧ failed o = false.
Proof.
  apply (returned_handle_is_not_failed 1 (running (λ _, reachable)) ∅ "" 0
           (seconds 2) "" false "" "" (boot 0) 0%nat).
  vm_compute. reflexivity.
Defined.

(** C1, as the code has it.  Take a call that ends after at least one
    pass of the loop and not by an exception of the driver.  It raises
    [DbConnectException] exactly when, at the check after the loop, the
    connection object created last is failed or the clock is later than
    the deadline; it returns the handle of that object exactly when the
    object is not failed and the clock is not later than the deadline.
    So a connection that was obtained is still answered by the exception
    when the deadline has passed. *)
Theorem connect_raises_iff_failed_or_late fuel env nh host port timeout name
    authenticate user pwd w out w' :
  makeDbConnection fuel env nh host port timeout name authenticate user pwd w
  = (out, w') →
  (allocated w < allocated w')%nat →
  out ≠ Unfinished →
  (∀ e, out ≠ Exc (Mongo e)) →
  ∃ c o,
    allocated w' = S c ∧ heap w' !! c = Some o ∧
    (out = Exc DbConnectException ↔
       failed o = true ∨ clock w' > clock w + float_ns timeout) ∧
    (out = Val c ↔
       failed o = false ∧ clock w' ≤ clock w + float_ns timeout).
Proof.
  destruct (makeDbConnection_unfold fuel env nh host port timeout name
              authenticate user pwd w) as (a & b & n & u & p & tr & ->).
  intros Hrun Hpass Hfin Hdrv.
  destruct (retry_loop_spec env a n u p b (clock w + float_ns timeout) fuel
              None (add_trace tr w)) as (r & w1 & Hloop & _ & Hr).
  unfold bind in Hrun. rewrite Hloop in Hrun.
  destruct r as [conn | [[|code]|] | |]; try done;
    [ | injection Hrun as <- <-; by destruct (Hdrv (DBException code))
      | injection Hrun as <- <-; done ].
  destruct Hr as [[-> ->] | (c & o & -> & Ha & _ & Ho)].
  { rewrite after_loop_None in Hrun. injection Hrun as <- <-.
    simpl in Hpass. lia. }
  rewrite (after_loop_Some _ _ _ _ Ho) in Hrun.
  exists c, o.
  destruct (failed o) eqn:Hfailed; simpl in Hrun;
    [ | case_bool_decide as Hlate ]; injection Hrun as <- <-; simpl;
    (split; [ done | split; [ done | ] ]).
  - split; split; [ by left | done | done | by intros [? _] ].
  - split; split; [ by right | done | done | intros [_ ?]; lia ].
  - split; split; [ done | intros [? | ?]; [ done | lia ] | | done ].
    intros _. split; [ done | lia ].
Qed.

Lemma connect_raises_iff_failed_or_late_witness :
  let r := makeDbConnection 1 (running (λ _, reachable)) ∅ "" 0 (seconds 2)
             "" false "" "" (boot 0) in
  ∃ c o,
    allocated r.2 = S c ∧ heap r.2 !! c = Some o ∧
    (r.1 = Exc DbConnectException ↔
       failed o = true ∨ clock r.2 > clock (boot 0) + float_ns (seconds 2)) ∧
    (r.1 = Val c ↔
       failed o = false ∧ clock r.2 ≤ clock (boot 0) + float_ns (seconds 2)).
Proof.
  intros r.
  apply (connect_raises_iff_failed_or_late 1 (running (λ _, reachable)) ∅ ""
           0 (seconds 2) "" false "" "" (boot 0) r.1 r.2).
  - apply surjective_pairing.
  - vm_compute. lia.
  - vm_compute. discriminate.
  - intros e. vm_compute. discriminate.
Defined.

(** C1, as stated, fails: [connect] takes three seconds of a timeout of
    two and then succeeds.  The loop is left by [break] with a connection
    that is not failed, and the call raises [DbConnectException]. *)
Lemma connect_raises_despite_connection :
  let r := makeDbConnection 1 (running (λ _, slow)) ∅ "" 0 (seconds 2)
             "" false "" "" (boot 0) in
  r.1 = Exc DbConnectException ∧
  holds_connection r.2 ∧
  Log Info "" "connected" ∈ trace r.2.
Proof.
  intros r. split; [ by vm_compute | split ].
  - exists 0%nat, {| server := "localhost:27017"; failed := false |}.
    by vm_compute.
  - apply (bool_decide_unpack _). by vm_compute.
Qed.

(** ** ConnectException *)

(** The loop and the check after it never end in a [ConnectException]. *)
Lemma loop_and_check_no_ConnectException fuel env a n u p b end_ conn w :
  (loop_and_check fuel env a n u p b end_ conn w).1
  ≠ Exc (Mongo ConnectException).
Proof.
  unfold loop_and_check.
  destruct (retry_loop_spec env a n u p b end_ fuel conn w)
    as (r & w1 & Hloop & _ & Hr).
  unfold bind. rewrite Hloop.
  destruct r as [conn' | [[|code]|] | |]; try done.
  unfold after_loop, arrow, isFailed, WallTime_now, throw, ROS_LOG, emit,
    bind, ret.
  destruct conn' as [c|]; [ | done ].
  destruct (heap w1 !! c) as [o|]; [ | done ].
  destruct (failed o); [ done | ]. by destruct (bool_decide _).
Qed.

(** The [try] block starts by logging the address and calling [connect]
    on its object. *)
Lemma try_block_starts_with_connect env c a n u p b w :
  ∃ tr,
    trace (try_block env c a n u p b w).2
    = trace w ++
      [Log Debug "init" ("Connecting to db at " +:+ a); Connect c a] ++ tr.
Proof.
  unfold try_block, connect, auth, isFailed, raise_if, ROS_LOG, emit, elapse,
    advance, store, set_failed, throw, bind, ret, add_trace; simpl.
  destruct (driver env c) as [cc ct cf ac at_ ao ae af]; simpl.
  destruct ct as [e|], b, at_ as [e'|], ao, cf, af; simpl;
    rewrite ?alter_insert_eq, ?lookup_insert_eq; simpl;
    rewrite <- ?app_assoc; simpl; eexists; reflexivity.
Qed.

(** C9.  A pass of the loop whose [try] block is left by a
    [ConnectException] catches it: the code sleeps one second and goes
    back to the loop test with the pointer on the object of this pass.
    When the loop test still holds after the sleep, the attempt is made
    again: a new connection object is created, in the state of an object
    that was never connected, and the [try] block runs on it and calls
    [connect] on it.  And no call of [makeDbConnection] ends in a
    [ConnectException]. *)
Theorem ConnectException_is_caught_and_retried fuel env db_address db_name
    db_user db_pwd db_authenticate end_ conn w w1
    nh host port timeout name authenticate user pwd w0 :
  ros_ok env (allocated w) = true →
  clock w < end_ →
  try_block env (allocated w) db_address db_name db_user db_pwd
    db_authenticate (new_DBClientConnection w).2
  = (Exc (Mongo ConnectException), w1) →
  let c := allocated w in
  let w2 := advance second (add_trace [Sleep second] w1) in
  let w3 := (new_DBClientConnection w2).2 in
  retry_loop (S fuel) env db_address db_name db_user db_pwd db_authenticate
    end_ conn w
  = retry_loop fuel env db_address db_name db_user db_pwd db_authenticate
      end_ (Some c) w2
  ∧ (ros_ok env (S c) = true →
     clock w1 + second < end_ →
     retry_loop (S (S fuel)) env db_address db_name db_user db_pwd
       db_authenticate end_ conn w
     = (brk <~ catch_ConnectException
                 (try_block env (S c) db_address db_name db_user db_pwd
                    db_authenticate)
                 (Duration_sleep second ;; ret false);
        if brk
        then ret (Some (S c))
        else retry_loop fuel env db_address db_name db_user db_pwd
               db_authenticate end_ (Some (S c))) w3
     ∧ heap w3 !! S c = Some {| server := ""; failed := false |}
     ∧ ∃ tr,
         trace (try_block env (S c) db_address db_name db_user db_pwd
                  db_authenticate w3).2
         = trace w1 ++
           [Sleep second; NewConnection (S c);
            Log Debug "init" ("Connecting to db at " +:+ db_address);
            Connect (S c) db_address] ++ tr)
  ∧ (makeDbConnection fuel env nh host port timeout name authenticate user
       pwd w0).1 ≠ Exc (Mongo ConnectException).
Proof.
  intros Hok Hearly Hblock c w2 w3.
  assert (∀ k,
    retry_loop (S k) env db_address db_name db_user db_pwd db_authenticate
      end_ conn w
    = retry_loop k env db_address db_name db_user db_pwd db_authenticate
        end_ (Some c) w2) as Hcaught.
  { intros k. rewrite retry_loop_go by done.
    rewrite (bind_Val _ _ _ _ _ (new_DBClientConnection_eq w)).
    by rewrite (bind_Val _ _ _ _ _ (body_catches _ _ _ _ _ _ _ _ _ Hblock)). }
  assert (allocated w1 = S c) as Ha1.
  { destruct (try_block_spec env db_address db_name db_user db_pwd
                db_authenticate (allocated w) (new_DBClientConnection w).2)
      as (r & w' & o & Hb & Ha & _).
    rewrite Hblock in Hb. by injection Hb as <- <-. }
  split; [ apply Hcaught | split ].
  - intros Hok2 Hearly2. split; [ | split ].
    + rewrite Hcaught.
      rewrite retry_loop_go by (simpl; rewrite ?Ha1; done || lia).
      rewrite (bind_Val _ _ _ _ _ (new_DBClientConnection_eq w2)).
      unfold w3. simpl. by rewrite Ha1.
    + unfold w3. simpl. rewrite Ha1. apply lookup_insert_eq.
    + destruct (try_block_starts_with_connect env (S c) db_address db_name
                  db_user db_pwd db_authenticate w3) as (tr & ->).
      exists tr. unfold w3. simpl. rewrite Ha1.
      by rewrite <- !app_assoc.
  - destruct (makeDbConnection_unfold fuel env nh host port timeout name
                authenticate user pwd w0) as (a & b & n & u & p & tr & ->).
    apply loop_and_check_no_ConnectException.
Qed.

Lemma ConnectException_is_caught_and_retried_witness :
  let env := running (λ _, unreachable) in
  let end_ := 3 * second in
  let w1 := (try_block env 0 "h:1" "" "" "" false
               (new_DBClientConnection (boot 0)).2).2 in
  let w2 := advance second (add_trace [Sleep second] w1) in
  let w3 := (new_DBClientConnection w2).2 in
  retry_loop 3 env "h:1" "" "" "" false end_ None (boot 0)
  = retry_loop 2 env "h:1" "" "" "" false end_ (Some 0%nat) w2
  ∧ (retry_loop 4 env "h:1" "" "" "" false end_ None (boot 0)
     = (brk <~ catch_ConnectException
                 (try_block env 1 "h:1" "" "" "" false)
                 (Duration_sleep second ;; ret false);
        if brk
        then ret (Some 1%nat)
        else retry_loop 2 env "h:1" "" "" "" false end_ (Some 1%nat)) w3
     ∧ heap w3 !! 1%nat = Some {| server := ""; failed := false |}
     ∧ ∃ tr,
         trace (try_block env 1 "h:1" "" "" "" false w3).2
         = trace w1 ++
           [Sleep second; NewConnection 1;
            Log Debug "init" ("Connecting to db at " +:+ "h:1");
            Connect 1 "h:1"] ++ tr)
  ∧ (makeDbConnection 2 env ∅ "h" 1 (seconds 1) "" false "" "" (boot 0)).1
    ≠ Exc (Mongo ConnectException).
Proof.
  intros env end_ w1 w2 w3.
  destruct (ConnectException_is_caught_and_retried 2 env "h:1" "" "" "" false
              end_ None (boot 0) w1 ∅ "h" 1 (seconds 1) "" false "" ""
              (boot 0)) as (Hcaught & Hretried & Hnever).
  - reflexivity.
  - vm_compute. reflexivity.
  - vm_compute. reflexivity.
  - split; [ exact Hcaught | split; [ | exact Hnever ] ].
    apply Hretried; [ reflexivity | vm_compute; reflexivity ].
Defined.

(** ** An address nobody listens at *)

Section Unreachable.
Context (env : Env) (db_address db_name db_user db_pwd : string)
        (db_authenticate : bool) (end_ : Z) (d : Z).

(** The process keeps running; every [connect] throws
    [ConnectException], leaves its object failed and takes at most [d]
    nanoseconds. *)
Hypothesis Hrunning : ∀ k, ros_ok env k = true.
Hypothesis Hrefused : ∀ c,
  connect_throws (driver env c) = Some ConnectException ∧
  connect_failed (driver env c) = true ∧
  Z.of_N (connect_cost (driver env c)) ≤ d.

Let loop fuel := retry_loop fuel env db_address db_name db_user db_pwd
                   db_authenticate end_.

(** One pass: the object is left failed and the clock has moved by the
    time [connect] took and the second of sleep. *)
Lemma unreachable_pass fuel conn w :
  clock w < end_ →
  ∃ w2,
    loop (S fuel) conn w = loop fuel (Some (allocated w)) w2 ∧
    allocated w2 = S (allocated w) ∧
    clock w2
    = clock w + Z.of_N (connect_cost (driver env (allocated w))) + second ∧
    heap w2 !! allocated w
    = Some {| server := db_address; failed := true |}.
Proof.
  intros Hearly. destruct (Hrefused (allocated w)) as (Hthrows & Hfailed & _).
  eexists. split.
  - unfold loop. rewrite retry_loop_go by done.
    rewrite (bind_Val _ _ _ _ _ (new_DBClientConnection_eq w)).
    rewrite (bind_Val _ _ _ _ _
               (body_catches _ _ _ _ _ _ _ _ _
                  (try_block_connect_throws _ _ _ _ _ _ _ _ _ Hthrows))).
    reflexivity.
  - simpl. rewrite Hfailed, lookup_insert_eq. done.
Qed.

(** The loop ends: [n] passes are enough for [n] seconds, and one more
    test leaves the loop.  It ends with a failed object, not before the
    deadline and less than a second and [d] after it. *)
Lemma unreachable_loop n : ∀ fuel conn w,
  clock w < end_ →
  end_ - clock w ≤ Z.of_nat n * second →
  (n ≤ fuel)%nat →
  ∃ c w',
    loop (S fuel) conn w = (Val (Some c), w') ∧
    heap w' !! c = Some {| server := db_address; failed := true |} ∧
    end_ ≤ clock w' < end_ + second + d ∧
    (allocated w < allocated w' ≤ allocated w + n)%nat.
Proof.
  induction n as [|n IH]; intros fuel conn w Hearly Hn Hfuel; [ lia | ].
  destruct fuel as [|fuel]; [ lia | ].
  destruct (unreachable_pass (S fuel) conn w Hearly)
    as (w2 & -> & Ha & Hc & Hh).
  destruct (Hrefused (allocated w)) as (_ & _ & Hd).
  pose proof (N2Z.is_nonneg (connect_cost (driver env (allocated w)))).
  destruct (decide (clock w2 < end_)) as [Hagain | Hdone].
  - destruct (IH fuel (Some (allocated w)) w2 Hagain)
      as (c & w' & Hl & ? & ? & ?); [ unfold second in *; lia | lia | ].
    exists c, w'. repeat split; try done; lia.
  - exists (allocated w), w2. unfold loop.
    rewrite retry_loop_stop by (right; lia).
    unfold second in *. repeat split; try done; lia.
Qed.
End Unreachable.

(** C10, as the code has it.  The process keeps running and every
    [connect] throws [ConnectException], leaves its object failed and
    takes at most [d] nanoseconds.  With a timeout of two seconds and
    fuel for three loop tests, [makeDbConnection] ends: it raises
    [DbConnectException], after at most two passes, not before the
    deadline and less than one second of sleep and [d] after it. *)
Theorem unreachable_times_out fuel env nh host port timeout name
    authenticate user pwd w d :
  float_ns timeout = 2 * second →
  (∀ k, ros_ok env k = true) →
  (∀ c, connect_throws (driver env c) = Some ConnectException ∧
        connect_failed (driver env c) = true ∧
        Z.of_N (connect_cost (driver env c)) ≤ d) →
  ∃ w',
    makeDbConnection (3 + fuel) env nh host port timeout name authenticate
      user pwd w = (Exc DbConnectException, w') ∧
    clock w + 2 * second ≤ clock w' < clock w + 3 * second + d ∧
    (allocated w < allocated w' ≤ allocated w + 2)%nat.
Proof.
  intros Htimeout Hrunning Hrefused.
  destruct (makeDbConnection_unfold (3 + fuel) env nh host port timeout name
              authenticate user pwd w) as (a & b & n & u & p & tr & ->).
  rewrite Htimeout.
  destruct (unreachable_loop env a n u p b (clock w + 2 * second) d Hrunning
              Hrefused 2 (2 + fuel) None (add_trace tr w))
    as (c & w' & Hloop & Hheap & Hclock & Halloc).
  { simpl. unfold second. lia. }
  { simpl. unfold second. lia. }
  { lia. }
  exists w'. rewrite (bind_Val _ _ _ _ _ Hloop).
  rewrite (after_loop_Some _ _ _ _ Hheap). simpl in *.
  split; [ done | ]. split; lia.
Qed.

Lemma unreachable_times_out_witness :
  ∃ w',
    makeDbConnection 3 (running (λ _, unreachable)) ∅ "" 0 (seconds 2) ""
      false "" "" (boot 0) = (Exc DbConnectException, w') ∧
    clock (boot 0) + 2 * second ≤ clock w'
      < clock (boot 0) + 3 * second + 0 ∧
    (allocated (boot 0) < allocated w' ≤ allocated (boot 0) + 2)%nat.
Proof.
  apply (unreachable_times_out 0 (running (λ _, unreachable)) ∅ "" 0
           (seconds 2) "" false "" "" (boot 0) 0).
  - reflexivity.
  - intros k. reflexivity.
  - intros c. simpl. repeat split. lia.
Defined.

(** C10, as stated, fails in two ways, with a timeout of two seconds
    and every [connect] throwing [ConnectException].  When each [connect]
    takes ten seconds to throw, [DbConnectException] is raised after
    eleven seconds, not two to three: nothing bounds the time of one
    attempt.  When [connect] throws at once and does not mark its object
    failed, the second sleep ends on the deadline, the check after the
    loop finds an object that is not failed and a clock that is not past
    the deadline, and a handle is returned. *)
Lemma unreachable_raises_late_or_returns :
  let late := makeDbConnection 3 (running (λ _, slow_refusal)) ∅ "" 0
                (seconds 2) "" false "" "" (boot 0) in
  let returned := makeDbConnection 3 (running (λ _, refusal_unmarked)) ∅ "" 0
                    (seconds 2) "" false "" "" (boot 0) in
  (late.1 = Exc DbConnectException ∧ clock late.2 = 11 * second) ∧
  (returned.1 = Val 1%nat ∧ clock returned.2 = 2 * second).
Proof. intros late returned. by vm_compute. Qed.

(** ** What [auth] answers is not observed *)

Lemma alike_pure {A} (r : outcome A) : alike (λ w, (r, w)) (λ w, (r, w)).
Proof. by intros w w' Hw. Qed.

Lemma alike_ret {A} (a : A) : alike (ret a) (ret a).
Proof. apply alike_pure. Qed.

Lemma alike_throw {A} e : alike (@throw A e) (throw e).
Proof. apply alike_pure. Qed.

Lemma alike_raise_if {A} e (a : A) : alike (raise_if e a) (raise_if e a).
Proof. destruct e; apply alike_pure. Qed.

Lemma alike_emit e e' : alike (emit e) (emit e').
Proof. by intros w w' Hw. Qed.

Lemma alike_bind {A B} (m m' : M A) (k k' : A → M B) :
  alike m m' → (∀ a, alike (k a) (k' a)) → alike (bind m k) (bind m' k').
Proof.
  intros Hm Hk w w' Hw. destruct (Hm w w' Hw) as [Hr Hw1]. unfold bind.
  destruct (m w) as [r w1], (m' w') as [r' w1']. simpl in Hr, Hw1. subst r'.
  destruct r as [a|e|u|]; [ by apply Hk | done .. ].
Qed.

Lemma alike_catch {A} (m m' h h' : M A) :
  alike m m' → alike h h' →
  alike (catch_ConnectException m h) (catch_ConnectException m' h').
Proof.
  intros Hm Hh w w' Hw. destruct (Hm w w' Hw) as [Hr Hw1].
  unfold catch_ConnectException.
  destruct (m w) as [r w1], (m' w') as [r' w1']. simpl in Hr, Hw1. subst r'.
  destruct r as [a | [[|code]|] | u |]; [ done | by apply Hh | done .. ].
Qed.

Lemma alike_elapse ns : alike (elapse ns) (elapse ns).
Proof.
  intros w w' (Hc & Ha & Hh). unfold elapse, advance, same_but_trace; simpl.
  by rewrite Hc.
Qed.

Lemma alike_store c o : alike (store c o) (store c o).
Proof.
  intros w w' (Hc & Ha & Hh). unfold store, same_but_trace; simpl.
  by rewrite Hh.
Qed.

Lemma alike_set_failed c f : alike (set_failed c f) (set_failed c f).
Proof.
  intros w w' (Hc & Ha & Hh). unfold set_failed, same_but_trace; simpl.
  by rewrite Hh.
Qed.

Lemma alike_isFailed c : alike (isFailed c) (isFailed c).
Proof.
  intros w w' (Hc & Ha & Hh). unfold isFailed. rewrite Hh.
  by destruct (heap w' !! c).
Qed.

Lemma alike_WallTime_now : alike WallTime_now WallTime_now.
Proof. intros w w' (Hc & Ha & Hh). unfold WallTime_now; simpl. by rewrite Hc. Qed.

Lemma alike_new_DBClientConnection :
  alike new_DBClientConnection new_DBClientConnection.
Proof.
  intros w w' (Hc & Ha & Hh).
  unfold new_DBClientConnection, same_but_trace; simpl. by rewrite Hc, Ha, Hh.
Qed.

Lemma alike_after_loop end_ conn : alike (after_loop end_ conn) (after_loop end_ conn).
Proof.
  unfold after_loop, arrow, ROS_LOG.
  apply alike_bind; [ destruct conn; apply alike_pure | intros c ].
  apply alike_bind; [ apply alike_isFailed | intros f ].
  apply alike_bind.
  - destruct f; [ apply alike_ret | ].
    apply alike_bind; [ apply alike_WallTime_now | intros; apply alike_ret ].
  - intros [|]; [ apply alike_throw | ].
    apply alike_bind; [ apply alike_emit | intros; apply alike_ret ].
Qed.

Section AuthAnswer.
Context (env env' : Env) (db_address db_name db_user db_pwd : string)
        (db_authenticate : bool) (end_ : Z).
Hypothesis Hsame : same_but_auth_answers env env'.

Lemma alike_connect c :
  alike (connect env c db_address) (connect env' c db_address).
Proof.
  destruct Hsame as [_ Hdriver].
  destruct (Hdriver c) as (Hcc & Hct & Hcf & _).
  unfold connect. rewrite Hcc, Hct, Hcf.
  apply alike_bind; [ apply alike_emit | intros _ ].
  apply alike_bind; [ apply alike_elapse | intros _ ].
  apply alike_bind; [ apply alike_store | intros _ ].
  apply alike_raise_if.
Qed.

(** The call of [auth] and the log line for its failure. *)
Lemma alike_auth c :
  alike
    (r <~ auth env c db_name db_user db_pwd;
     if negb r.1
     then ROS_LOG Error "" ("Mongo authentication failed " +:+ r.2)
     else ret tt)
    (r <~ auth env' c db_name db_user db_pwd;
     if negb r.1
     then ROS_LOG Error "" ("Mongo authentication failed " +:+ r.2)
     else ret tt).
Proof.
  destruct Hsame as [_ Hdriver].
  destruct (Hdriver c) as (_ & _ & _ & Hac & Hat & Haf).
  intros w w' (Hc & Ha & Hh).
  unfold auth, raise_if, throw, ROS_LOG, emit, elapse, advance, set_failed,
    bind, ret, add_trace, same_but_trace; simpl.
  rewrite Hac, Hat, Haf, Hc, Ha, Hh.
  destruct (auth_throws (driver env' c)); simpl; [ done | ].
  by destruct (auth_ok (driver env c)), (auth_ok (driver env' c)).
Qed.

Lemma alike_try_block c :
  alike (try_block env c db_address db_name db_user db_pwd db_authenticate)
        (try_block env' c db_address db_name db_user db_pwd db_authenticate).
Proof.
  unfold try_block, ROS_LOG.
  apply alike_bind; [ apply alike_emit | intros _ ].
  apply alike_bind; [ apply alike_connect | intros _ ].
  apply alike_bind.
  - destruct db_authenticate; [ | apply alike_ret ].
    apply alike_bind; [ apply alike_emit | intros _ ]. apply alike_auth.
  - intros _. apply alike_bind; [ apply alike_isFailed | intros f ].
    destruct f; simpl; [ apply alike_ret | ].
    apply alike_bind; [ apply alike_emit | intros; apply alike_ret ].
Qed.

Lemma alike_loop_test : alike (loop_test env end_) (loop_test env' end_).
Proof.
  destruct Hsame as [Hok _]. unfold loop_test.
  apply alike_bind.
  - intros w w' (Hc & Ha & Hh). unfold ros_ok_call; simpl.
    by rewrite Hok, Ha.
  - intros [|]; [ | apply alike_ret ].
    apply alike_bind; [ apply alike_WallTime_now | intros; apply alike_ret ].
Qed.

Lemma alike_retry_loop fuel : ∀ conn,
  alike (retry_loop fuel env db_address db_name db_user db_pwd
           db_authenticate end_ conn)
        (retry_loop fuel env' db_address db_name db_user db_pwd
           db_authenticate end_ conn).
Proof.
  induction fuel as [|fuel IH]; intros conn; [ done | ].
  simpl. apply alike_bind; [ apply alike_loop_test | intros go ].
  destruct go; [ | apply alike_ret ].
  apply alike_bind; [ apply alike_new_DBClientConnection | intros c ].
  apply alike_bind.
  - apply alike_catch; [ apply alike_try_block | ].
    unfold Duration_sleep.
    apply alike_bind; [ | intros; apply alike_ret ].
    apply alike_bind; [ apply alike_emit | intros; apply alike_elapse ].
  - intros [|]; [ apply alike_ret | apply IH ].
Qed.

(** From the loop test on, the two environments give the same result. *)
Lemma alike_loop_and_check fuel conn :
  alike (loop_and_check fuel env db_address db_name db_user db_pwd
           db_authenticate end_ conn)
        (loop_and_check fuel env' db_address db_name db_user db_pwd
           db_authenticate end_ conn).
Proof.
  unfold loop_and_check.
  apply alike_bind; [ apply alike_retry_loop | intros; apply alike_after_loop ].
Qed.
End AuthAnswer.

(** ** A refused authentication *)

(** C5, as the code has it.  Authentication is asked for, and in some
    pass of the loop [connect] returns, [auth] answers [false] and the
    connection object is not failed.  Then the pass logs the failure and
    raises nothing, and the loop is left at once with the pointer on that
    object.  The handle is returned when the clock at the check after the
    loop is not later than the deadline, and [DbConnectException] is
    raised when it is.  Whichever it is, an environment that differs only
    in what [auth] answers gives the same result. *)
Theorem auth_failure_is_only_logged fuel env db_address db_name db_user db_pwd
    end_ conn w :
  let c := allocated w in
  ros_ok env c = true →
  clock w < end_ →
  connect_throws (driver env c) = None →
  auth_throws (driver env c) = None →
  auth_ok (driver env c) = false →
  auth_failed (driver env c) = false →
  ∃ w1,
    retry_loop (S fuel) env db_address db_name db_user db_pwd true end_ conn w
    = (Val (Some c), w1) ∧
    allocated w1 = S c ∧
    trace w1
    = trace w ++
      [NewConnection c;
       Log Debug "init" ("Connecting to db at " +:+ db_address);
       Connect c db_address;
       Log Info "" "Authing";
       Auth c db_name db_user db_pwd;
       Log Error "" ("Mongo authentication failed " +:+
                     auth_err (driver env c));
       Log Info "" "connected"] ∧
    loop_and_check (S fuel) env db_address db_name db_user db_pwd true end_
      conn w
    = (if bool_decide (clock w1 > end_)
       then (Exc DbConnectException, w1)
       else (Val c,
             add_trace [Log Debug "init" "Successfully connected to db"] w1)) ∧
    ∀ env' w',
      same_but_auth_answers env env' → same_but_trace w w' →
      (loop_and_check (S fuel) env' db_address db_name db_user db_pwd true
         end_ conn w').1
      = (loop_and_check (S fuel) env db_address db_name db_user db_pwd true
           end_ conn w).1.
Proof.
  intros c Hok Hearly Hct Hat Hao Haf.
  assert (∃ w1,
    retry_loop (S fuel) env db_address db_name db_user db_pwd true end_ conn w
    = (Val (Some c), w1) ∧
    allocated w1 = S c ∧
    heap w1 !! c = Some {| server := db_address; failed := false |} ∧
    trace w1
    = trace w ++
      [NewConnection c;
       Log Debug "init" ("Connecting to db at " +:+ db_address);
       Connect c db_address;
       Log Info "" "Authing";
       Auth c db_name db_user db_pwd;
       Log Error "" ("Mongo authentication failed " +:+
                     auth_err (driver env c));
       Log Info "" "connected"]) as (w1 & Hloop & Ha & Hh & Ht).
  { eexists. split.
    - rewrite retry_loop_go by done.
      rewrite (bind_Val _ _ _ _ _ (new_DBClientConnection_eq w)).
      unfold catch_ConnectException, try_block, connect, auth, isFailed,
        raise_if, ROS_LOG, emit, elapse, advance, store, set_failed, throw,
        bind, ret, add_trace; simpl.
      fold c. rewrite Hct; simpl. rewrite Hat, Hao; simpl.
      rewrite alter_insert_eq, lookup_insert_eq, Haf; simpl. reflexivity.
    - simpl. rewrite lookup_insert_eq.
      repeat split. by rewrite <- !app_assoc. }
  exists w1. repeat split; try done.
  - unfold loop_and_check. rewrite (bind_Val _ _ _ _ _ Hloop).
    by rewrite (after_loop_Some _ _ _ _ Hh).
  - intros env' w' Hsame Hw. symmetry.
    by apply (alike_loop_and_check env env' db_address db_name db_user db_pwd
                true end_ Hsame (S fuel) conn w w').
Qed.

Lemma auth_failure_is_only_logged_witness :
  let env := running (λ _, refusing 0) in
  ∃ w1,
    retry_loop 1 env "h:1" "db" "u" "p" true second None (boot 0)
    = (Val (Some 0%nat), w1) ∧
    allocated w1 = 1%nat ∧
    trace w1
    = trace (boot 0) ++
      [NewConnection 0;
       Log Debug "init" ("Connecting to db at " +:+ "h:1");
       Connect 0 "h:1";
       Log Info "" "Authing";
       Auth 0 "db" "u" "p";
       Log Error "" ("Mongo authentication failed " +:+
                     auth_err (driver env 0));
       Log Info "" "connected"] ∧
    loop_and_check 1 env "h:1" "db" "u" "p" true second None (boot 0)
    = (if bool_decide (clock w1 > second)
       then (Exc DbConnectException, w1)
       else (Val 0%nat,
             add_trace [Log Debug "init" "Successfully connected to db"] w1)) ∧
    ∀ env' w',
      same_but_auth_answers env env' → same_but_trace (boot 0) w' →
      (loop_and_check 1 env' "h:1" "db" "u" "p" true second None w').1
      = (loop_and_check 1 env "h:1" "db" "u" "p" true second None (boot 0)).1.
Proof.
  intros env.
  apply (auth_failure_is_only_logged 0 env "h:1" "db" "u" "p" second None
           (boot 0)); reflexivity.
Defined.

(** C5, as stated, fails: [connect] takes three seconds of a timeout of
    two, [auth] answers [false] and the connection is not failed.  The
    failure is logged, the loop is left with that connection, and the
    handle is not returned: the call raises [DbConnectException]. *)
Lemma auth_failure_handle_not_returned :
  let r := makeDbConnection 1 (running (λ _, refusing 3000000000)) ∅ "" 0
             (seconds 2) "" true "" "" (boot 0) in
  Log Error "" "Mongo authentication failed auth fails" ∈ trace r.2 ∧
  Log Info "" "connected" ∈ trace r.2 ∧
  holds_connection r.2 ∧
  r.1 = Exc DbConnectException.
Proof.
  intros r. repeat split.
  - apply (bool_decide_unpack _). by vm_compute.
  - apply (bool_decide_unpack _). by vm_compute.
  - exists 0%nat, {| server := "localhost:27017"; failed := false |}.
    by vm_compute.
Qed.

(** ** dropDatabase *)

Lemma drops_app tr1 tr2 : drops (tr1 ++ tr2) = (drops tr1 + drops tr2)%nat.
Proof. unfold drops. by rewrite List.filter_app, length_app. Qed.

Lemma drops_nothing_pure {A} (r : outcome A) : drops_nothing (λ w, (r, w)).
Proof. by intros w. Qed.

Lemma drops_nothing_emit e : is_drop e = false → drops_nothing (emit e).
Proof.
  intros He w. unfold emit, add_trace; simpl. rewrite drops_app.
  unfold drops at 2; simpl. rewrite He; simpl. lia.
Qed.

Lemma drops_nothing_bind {A B} (m : M A) (k : A → M B) :
  drops_nothing m → (∀ a, drops_nothing (k a)) → drops_nothing (bind m k).
Proof.
  intros Hm Hk w. specialize (Hm w). unfold bind.
  destruct (m w) as [[a|e|u|] w1]; simpl in *; [ | done .. ].
  by rewrite Hk.
Qed.

Lemma drops_nothing_catch {A} (m h : M A) :
  drops_nothing m → drops_nothing h →
  drops_nothing (catch_ConnectException m h).
Proof.
  intros Hm Hh w. specialize (Hm w). unfold catch_ConnectException.
  destruct (m w) as [[a | [[|code]|] | u |] w1]; simpl in *; [ done | | done .. ].
  by rewrite Hh.
Qed.

Lemma drops_nothing_same_trace {A} (m : M A) :
  (∀ w, trace (m w).2 = trace w) → drops_nothing m.
Proof. intros Hm w. by rewrite Hm. Qed.

Create HintDb drops.
#[local] Hint Resolve drops_nothing_pure drops_nothing_emit : drops.
#[local] Hint Extern 2 (drops_nothing (bind _ _)) =>
  apply drops_nothing_bind; [ | intros ? ] : drops.
#[local] Hint Extern 2 (drops_nothing (ret _)) =>
  apply drops_nothing_pure : drops.
#[local] Hint Extern 2 (drops_nothing (throw _)) =>
  apply drops_nothing_pure : drops.
#[local] Hint Extern 3 (drops_nothing (if ?b then _ else _)) =>
  destruct b : drops.
#[local] Hint Extern 3 (drops_nothing (match ?o with Some _ => _ | None => _ end)) =>
  destruct o : drops.
#[local] Hint Extern 2 (drops_nothing (elapse _)) =>
  apply drops_nothing_same_trace; intros ?; reflexivity : drops.
#[local] Hint Extern 2 (drops_nothing (store _ _)) =>
  apply drops_nothing_same_trace; intros ?; reflexivity : drops.
#[local] Hint Extern 2 (drops_nothing (set_failed _ _)) =>
  apply drops_nothing_same_trace; intros ?; reflexivity : drops.
#[local] Hint Extern 2 (drops_nothing WallTime_now) =>
  apply drops_nothing_same_trace; intros ?; reflexivity : drops.

Lemma drops_nothing_isFailed c : drops_nothing (isFailed c).
Proof. intros w. unfold isFailed. by destruct (heap w !! c). Qed.

Lemma drops_nothing_connect env c address :
  drops_nothing (connect env c address).
Proof. unfold connect, raise_if. auto 10 with drops. Qed.

Lemma drops_nothing_auth env c db user pwd :
  drops_nothing (auth env c db user pwd).
Proof. unfold auth, raise_if. auto 10 with drops. Qed.

Lemma drops_nothing_getParam `{ParamType P} nh name (default_val : P) :
  drops_nothing (getParam nh name default_val).
Proof. unfold getParam, nh_param, ROS_LOG. auto 10 with drops. Qed.

#[local] Hint Resolve drops_nothing_isFailed drops_nothing_connect
  drops_nothing_auth drops_nothing_getParam : drops.

Lemma drops_nothing_try_block env c a n u p b :
  drops_nothing (try_block env c a n u p b).
Proof. unfold try_block, ROS_LOG. auto 12 with drops. Qed.

Lemma drops_nothing_retry_loop env a n u p b end_ fuel : ∀ conn,
  drops_nothing (retry_loop fuel env a n u p b end_ conn).
Proof.
  induction fuel as [|fuel IH]; intros conn; [ apply drops_nothing_pure | ].
  simpl. apply drops_nothing_bind.
  { unfold loop_test. apply drops_nothing_bind; [ by intros w | intros ok ].
    destruct ok; auto 8 with drops. }
  intros go. destruct go; [ | auto with drops ].
  apply drops_nothing_bind.
  { intros w. unfold new_DBClientConnection; simpl. rewrite drops_app.
    unfold drops at 2; simpl. lia. }
  intros c. apply drops_nothing_bind.
  - apply drops_nothing_catch; [ apply drops_nothing_try_block | ].
    unfold Duration_sleep. auto 8 with drops.
  - intros brk. destruct brk; [ auto with drops | apply IH ].
Qed.

Lemma drops_nothing_after_loop end_ conn : drops_nothing (after_loop end_ conn).
Proof. unfold after_loop, arrow, ROS_LOG. auto 12 with drops. Qed.

Lemma drops_nothing_resolve_settings nh host port timeout name authenticate
    user pwd :
  drops_nothing (resolve_settings nh host port timeout name authenticate user
                   pwd).
Proof.
  unfold resolve_settings, getHost, getPort, getAuthenticate, getName,
    getUser, getPwd, ROS_INFO, ROS_LOG.
  repeat (apply drops_nothing_bind; [ auto with drops | intros ? ]).
  auto with drops.
Qed.

Lemma drops_nothing_makeDbConnection fuel env nh host port timeout name
    authenticate user pwd :
  drops_nothing (makeDbConnection fuel env nh host port timeout name
                   authenticate user pwd).
Proof.
  unfold makeDbConnection, loop_and_check.
  apply drops_nothing_bind; [ apply drops_nothing_resolve_settings | ].
  intros [[[[a b] n] u] p].
  apply drops_nothing_bind; [ auto with drops | intros start ].
  apply drops_nothing_bind;
    [ apply drops_nothing_retry_loop | intros; apply drops_nothing_after_loop ].
Qed.

(** C8.  The one-argument [dropDatabase] is the four-argument one with an
    empty host, port 0 and a timeout of 60 seconds.  The four-argument
    one calls [makeDbConnection]; when that returns a handle, it sends
    one drop-database command for the given name through that handle,
    and nothing else, and returns; when that ends in another way, an
    exception or otherwise, it ends in the same way, in the same world.
    The trace gains one drop-database command in the first case and none
    in the others. *)
Theorem dropDatabase_connects_then_drops fuel env d db host port timeout w :
  dropDatabase fuel env d db = dropDatabase4 fuel env d db "" 0 float_60 ∧
  float_ns float_60 = 60 * second ∧
  let connected :=
    makeDbConnection fuel env (global_params env) host port timeout
      (default_name d) (default_authenticate d) (default_user d)
      (default_pwd d) w in
  dropDatabase4 fuel env d db host port timeout w
  = match connected.1 with
    | Val c => (Val tt, add_trace [DropDatabase c db] connected.2)
    | Exc e => (Exc e, connected.2)
    | Undef u => (Undef u, connected.2)
    | Unfinished => (Unfinished, connected.2)
    end ∧
  drops (trace (dropDatabase4 fuel env d db host port timeout w).2)
  = (drops (trace w) + match connected.1 with Val _ => 1 | _ => 0 end)%nat.
Proof.
  split; [ reflexivity | split; [ reflexivity | ] ].
  intros connected.
  assert (dropDatabase4 fuel env d db host port timeout w
          = match connected.1 with
            | Val c => (Val tt, add_trace [DropDatabase c db] connected.2)
            | Exc e => (Exc e, connected.2)
            | Undef u => (Undef u, connected.2)
            | Unfinished => (Unfinished, connected.2)
            end) as Hrun.
  { unfold dropDatabase4, bind. fold connected.
    by destruct connected as [[c|e|u|] w1]. }
  split; [ done | ]. rewrite Hrun.
  pose proof (drops_nothing_makeDbConnection fuel env (global_params env)
                host port timeout (default_name d) (default_authenticate d)
                (default_user d) (default_pwd d) w) as Hnone.
  fold connected in Hnone.
  destruct connected as [[c|e|u|] w1]; simpl in *; rewrite ?drops_app, Hnone;
    unfold drops; simpl; lia.
Qed.

(** ** messageType *)

(** The first document a filter lets through is the first document that
    satisfies it. *)
Lemma head_filter_find {A} (p : A → bool) (l : list A) :
  head (List.filter p l) = List.find p l.
Proof.
  induction l as [|x l IH]; [ done | ]. simpl. by destruct (p x).
Qed.

Lemma matches_name coll obj :
  matches [("name", BString coll)] obj
  = bool_decide (getField obj "name" = Some (BString coll)).
Proof. unfold matches; simpl. apply andb_true_r. Qed.

Lemma cursor_next_head cursor w :
  cursor_next cursor w
  = (match head cursor with
     | Some obj => Val obj
     | None => Exc (Mongo (DBException cursor_exhausted))
     end, w).
Proof. by destruct cursor. Qed.

(** [messageType] as one search through the documents of the
    namespace. *)
Lemma messageType_reads_type_of_named_document env conn db coll w :
  let ns := db +:+ ".ros_message_collections" in
  messageType env conn db coll w
  = (match List.find
             (λ obj, bool_decide (getField obj "name" = Some (BString coll)))
             (default [] (documents env !! ns)) with
     | Some obj => Val (getStringField obj "type")
     | None => Exc (Mongo (DBException cursor_exhausted))
     end,
     add_trace [Query conn ns [("name", BString coll)]] w).
Proof.
  intros ns. unfold messageType, query. fold ns.
  unfold bind at 1. unfold bind at 2. unfold emit, ret at 1.
  unfold bind. rewrite cursor_next_head.
  rewrite (List.filter_ext _ _ (matches_name coll)), head_filter_find.
  by destruct (List.find _ _).
Qed.

(** The type of a registered collection is read; a type that is not a
    string reads as the empty string; a collection that is not
    registered ends in the driver's exception. *)
Example messageType_registered :
  let env := {| ros_ok := λ _, true; driver := λ _, reachable;
                global_params := ∅; documents := one_collection |} in
  (messageType env 0 "db" "scans" (boot 0)).1 = Val "sensor_msgs/LaserScan" ∧
  (messageType env 0 "db" "maps" (boot 0)).1
  = Exc (Mongo (DBException cursor_exhausted)) ∧
  (messageType env 0 "other" "scans" (boot 0)).1
  = Exc (Mongo (DBException cursor_exhausted)).
Proof. by vm_compute. Qed.

Lemma getStringField_string obj name s :
  getField obj name = Some (BString s) → getStringField obj name = s.
Proof. unfold getStringField. by intros ->. Qed.

Lemma find_first {A} (p : A → bool) (pre post : list A) (x : A) :
  (∀ y, y ∈ pre → p y = false) → p x = true →
  List.find p (pre ++ x :: post) = Some x.
Proof.
  intros Hpre Hx. induction pre as [|y pre IH]; simpl.
  - by rewrite Hx.
  - rewrite (Hpre y) by set_solver. apply IH. intros z Hz.
    apply Hpre. set_solver.
Qed.

Lemma find_none {A} (p : A → bool) (l : list A) :
  (∀ y, y ∈ l → p y = false) → List.find p l = None.
Proof.
  intros Hl. induction l as [|y l IH]; [ done | ]. simpl.
  rewrite (Hl y) by set_solver. apply IH. intros z Hz. apply Hl. set_solver.
Qed.

(** C7.  [messageType] sends one query, to the namespace made of the
    database name and [".ros_message_collections"], with the filter that
    asks for the ["name"] to be the collection name.  When the first
    document of that namespace whose ["name"] is the collection name
    stores the string [t] as its ["type"], [messageType] returns [t].
    When the namespace has no document of that name, it returns nothing
    and raises no error of this package: it leaves with the driver's
    exception for a cursor that has no next document. *)
Theorem messageType_answers_stored_type env conn db coll w :
  let ns := db +:+ ".ros_message_collections" in
  let docs := default [] (documents env !! ns) in
  let w' := add_trace [Query conn ns [("name", BString coll)]] w in
  (∀ pre obj post t,
     docs = pre ++ obj :: post →
     (∀ o, o ∈ pre → getField o "name" ≠ Some (BString coll)) →
     getField obj "name" = Some (BString coll) →
     getField obj "type" = Some (BString t) →
     messageType env conn db coll w = (Val t, w')) ∧
  ((∀ o, o ∈ docs → getField o "name" ≠ Some (BString coll)) →
   messageType env conn db coll w
   = (Exc (Mongo (DBException cursor_exhausted)), w')).
Proof.
  intros ns docs w'.
  pose proof (messageType_reads_type_of_named_document env conn db coll w)
    as Hrun.
  cbn zeta in Hrun. fold ns docs w' in Hrun. split.
  - intros pre obj post t Hdocs Hpre Hname Htype.
    rewrite Hrun, Hdocs, (find_first _ pre post obj).
    + by rewrite (getStringField_string _ _ _ Htype).
    + intros o Ho. apply bool_decide_eq_false_2. by apply Hpre.
    + by apply bool_decide_eq_true_2.
  - intros Hnone. rewrite Hrun, find_none; [ done | ].
    intros o Ho. apply bool_decide_eq_false_2. by apply Hnone.
Qed.

Lemma messageType_answers_stored_type_witness :
  let env := {| ros_ok := λ _, true; driver := λ _, reachable;
                global_params := ∅; documents := one_collection |} in
  messageType env 0 "db" "scans" (boot 0)
  = (Val "sensor_msgs/LaserScan",
     add_trace [Query 0 "db.ros_message_collections"
                  [("name", BString "scans")]] (boot 0)) ∧
  messageType env 0 "db" "maps" (boot 0)
  = (Exc (Mongo (DBException cursor_exhausted)),
     add_trace [Query 0 "db.ros_message_collections"
                  [("name", BString "maps")]] (boot 0)).
Proof.
  intros env. split.
  - destruct (messageType_answers_stored_type env 0%nat "db" "scans" (boot 0))
      as [Hfound _].
    apply (Hfound
             [ [("name", BString "poses");
                ("type", BString "geometry_msgs/Pose")] ]
             [("name", BString "scans");
              ("type", BString "sensor_msgs/LaserScan")]
             [] "sensor_msgs/LaserScan").
    + reflexivity.
    + apply Forall_forall. repeat constructor. by vm_compute.
    + reflexivity.
    + reflexivity.
  - destruct (messageType_answers_stored_type env 0%nat "db" "maps" (boot 0))
      as [_ Hmissing].
    apply Hmissing. apply Forall_forall. repeat constructor; by vm_compute.
Defined.

(** * Further properties *)

(** ** Falling back on the parameter server *)

(** X1.  With its argument unset and a parameter of the right type
    stored, each getter answers the stored value, whatever it is. *)
Theorem unset_argument_takes_stored_value (nh : NodeHandle) (w : World)
    (h n u pw : string) (p : Z) (a : bool) :
  nh !! "warehouse_host" = Some (XString h) →
  nh !! "warehouse_port" = Some (XInt p) →
  nh !! "warehouse_database_name" = Some (XString n) →
  nh !! "warehouse_user" = Some (XString u) →
  nh !! "warehouse_authenticate" = Some (XBool a) →
  nh !! "warehouse_pwd" = Some (XString pw) →
  (getHost nh "" w).1 = Val h ∧
  (getPort nh 0 w).1 = Val p ∧
  (getName nh "" w).1 = Val n ∧
  (getUser nh "" w).1 = Val u ∧
  (getAuthenticate nh false w).1 = Val a ∧
  (getPwd nh "" w).1 = Val pw.
Proof.
  intros Hh Hp Hn Hu Ha Hpw.
  unfold getHost, getPort, getName, getUser, getAuthenticate, getPwd.
  rewrite !decide_True by done.
  rewrite !getParam_result, Hh, Hp, Hn, Hu, Ha, Hpw. done.
Qed.

Lemma unset_argument_takes_stored_value_witness :
  let nh : NodeHandle :=
    {[ "warehouse_host" := XString "db.example";
       "warehouse_port" := XInt 5000;
       "warehouse_database_name" := XString "warehouse";
       "warehouse_user" := XString "robot";
       "warehouse_authenticate" := XBool false;
       "warehouse_pwd" := XString "secret" ]} in
  (getHost nh "" (boot 0)).1 = Val "db.example" ∧
  (getPort nh 0 (boot 0)).1 = Val 5000 ∧
  (getName nh "" (boot 0)).1 = Val "warehouse" ∧
  (getUser nh "" (boot 0)).1 = Val "robot" ∧
  (getAuthenticate nh false (boot 0)).1 = Val false ∧
  (getPwd nh "" (boot 0)).1 = Val "secret".
Proof.
  intros nh.
  apply (unset_argument_takes_stored_value nh (boot 0)); by vm_compute.
Defined.

(** ** The address *)

Lemma int_of_unsigned_small u : 0 ≤ u < 2 ^ 31 → int_of_unsigned u = u.
Proof.
  intros Hu. unfold int_of_unsigned. rewrite Z.mod_small by lia.
  destruct (Z.ltb_spec u (2 ^ 31)); lia.
Qed.

Lemma int_of_unsigned_large u :
  2 ^ 31 ≤ u < 2 ^ 32 → int_of_unsigned u = u - 2 ^ 32.
Proof.
  intros Hu. unfold int_of_unsigned. rewrite Z.mod_small by lia.
  destruct (Z.ltb_spec u (2 ^ 31)); lia.
Qed.

(** What [resolve_settings] answers, getter by getter. *)
Lemma resolve_settings_result nh host port timeout name authenticate user pwd w :
  (resolve_settings nh host port timeout name authenticate user pwd w).1
  = match (getHost nh host w).1, (getPort nh (int_of_unsigned port) w).1,
          (getAuthenticate nh authenticate w).1, (getName nh name w).1,
          (getUser nh user w).1, (getPwd nh pwd w).1 with
    | Val h, Val p, Val a, Val n, Val u, Val pw =>
        Val (h +:+ ":" +:+ shown p, a, n, u, pw)
    | _, _, _, _, _, _ => Unfinished
    end.
Proof.
  unfold resolve_settings, getHost, getPort, getAuthenticate, getName,
    getUser, getPwd.
  repeat case_decide; reflexivity.
Qed.

Lemma explicit_host_port (nh : NodeHandle) w host port :
  host ≠ "" → port ≠ 0 →
  (getHost nh host w).1 = Val host ∧ (getPort nh port w).1 = Val port.
Proof.
  intros Hhost Hport. unfold getHost, getPort.
  by rewrite !decide_False by done.
Qed.

(** The four other getters return. *)
Lemma getter_returns (nh : NodeHandle) authenticate name user pwd w :
  ∃ a n u pw,
    (getAuthenticate nh authenticate w).1 = Val a ∧
    (getName nh name w).1 = Val n ∧
    (getUser nh user w).1 = Val u ∧
    (getPwd nh pwd w).1 = Val pw.
Proof.
  unfold getAuthenticate, getName, getUser, getPwd.
  repeat case_decide; rewrite ?getParam_result; by eexists _, _, _, _.
Qed.

(** X2.  An explicit host and an explicit port make the address
    [host:port], whatever the parameter server holds.  The port goes
    through the conversion from [unsigned] to [int]: below [2^31] it is
    kept, from [2^31] on it reaches the address [2^32] lower, as a
    negative number. *)
Theorem explicit_host_and_port_give_address (nh : NodeHandle) host port
    timeout name authenticate user pwd w :
  host ≠ "" →
  0 < port < 2 ^ 32 →
  ∃ s,
    (resolve_settings nh host port timeout name authenticate user pwd w).1
    = Val s ∧
    settings_address s
    = host +:+ ":" +:+
      pretty (if bool_decide (port < 2 ^ 31) then port else port - 2 ^ 32).
Proof.
  intros Hhost Hport. rewrite resolve_settings_result.
  assert (int_of_unsigned port
          = if bool_decide (port < 2 ^ 31) then port else port - 2 ^ 32)
    as Hconv.
  { case_bool_decide;
      [ apply int_of_unsigned_small | apply int_of_unsigned_large ]; lia. }
  assert (int_of_unsigned port ≠ 0) as Hnz.
  { rewrite Hconv. case_bool_decide; lia. }
  destruct (explicit_host_port nh w host (int_of_unsigned port) Hhost Hnz)
    as [-> ->].
  destruct (getter_returns nh authenticate name user pwd w)
    as (a & n & u & pw & -> & -> & -> & ->).
  eexists. split; [ reflexivity | ]. unfold settings_address; simpl.
  by rewrite Hconv.
Qed.

Lemma explicit_host_and_port_give_address_witness :
  ∃ s,
    (resolve_settings ∅ "h" 4294967295 (seconds 2) "" false "" "" (boot 0)).1
    = Val s ∧
    settings_address s
    = "h" +:+ ":" +:+
      pretty (if bool_decide (4294967295 < 2 ^ 31)
              then 4294967295 else 4294967295 - 2 ^ 32).
Proof.
  apply (explicit_host_and_port_give_address ∅ "h" 4294967295 (seconds 2) ""
           false "" "" (boot 0)); [ discriminate | lia ].
Defined.

(** ** Counting events *)

Lemma count_events_app p tr1 tr2 :
  count_events p (tr1 ++ tr2)
  = (count_events p tr1 + count_events p tr2)%nat.
Proof. unfold count_events. by rewrite List.filter_app, length_app. Qed.

Lemma count_events_add p tr w :
  count_events p (trace (add_trace tr w))
  = (count_events p (trace w) + count_events p tr)%nat.
Proof. apply count_events_app. Qed.

Lemma emits_no_pure {A} p (r : outcome A) : emits_no p (λ w, (r, w)).
Proof. by intros w. Qed.

Lemma emits_no_same_trace {A} p (m : M A) :
  (∀ w, trace (m w).2 = trace w) → emits_no p m.
Proof. intros Hm w. by rewrite Hm. Qed.

Lemma emits_no_emit p e : p e = false → emits_no p (emit e).
Proof.
  intros He w. unfold emit. simpl. rewrite count_events_app.
  unfold count_events at 2; simpl. rewrite He; simpl. lia.
Qed.

Lemma emits_no_bind {A B} p (m : M A) (k : A → M B) :
  emits_no p m → (∀ a, emits_no p (k a)) → emits_no p (bind m k).
Proof.
  intros Hm Hk w. specialize (Hm w). unfold bind.
  destruct (m w) as [[a|e|u|] w1]; simpl in *; [ | done .. ].
  by rewrite Hk.
Qed.

Lemma emits_no_catch {A} p (m h : M A) :
  emits_no p m → emits_no p h → emits_no p (catch_ConnectException m h).
Proof.
  intros Hm Hh w. specialize (Hm w). unfold catch_ConnectException.
  destruct (m w) as [[a | [[|code]|] | u |] w1]; simpl in *; [ done | | done .. ].
  by rewrite Hh.
Qed.

Lemma emits_no_getParam `{ParamType P} p nh name (default_val : P) :
  (∀ e, is_note e = true → p e = false) →
  emits_no p (getParam nh name default_val).
Proof.
  intros Hp. unfold getParam, nh_param, ROS_LOG.
  apply emits_no_bind; [ | intros val ].
  - apply emits_no_bind; [ by apply emits_no_emit, Hp | intros _ ].
    apply emits_no_pure.
  - apply emits_no_bind; [ by apply emits_no_emit, Hp | intros _ ].
    apply emits_no_pure.
Qed.

(** The getters and the log lines before the loop only look parameters
    up and log. *)
Lemma emits_no_resolve_settings p nh host port timeout name authenticate
    user pwd :
  (∀ e, is_note e = true → p e = false) →
  emits_no p (resolve_settings nh host port timeout name authenticate user
                pwd).
Proof.
  intros Hp.
  assert (∀ msg, emits_no p (ROS_INFO msg)) as Hinfo.
  { intros msg. by apply emits_no_emit, Hp. }
  unfold resolve_settings, getHost, getPort, getAuthenticate, getName,
    getUser, getPwd.
  repeat (apply emits_no_bind;
          [ first [ apply Hinfo
                  | case_decide;
                    [ by apply emits_no_getParam | apply emits_no_pure ] ]
          | intros ? ]).
  apply emits_no_pure.
Qed.

Lemma emits_no_after_loop p end_ conn :
  (∀ e, is_note e = true → p e = false) →
  emits_no p (after_loop end_ conn).
Proof.
  intros Hp. unfold after_loop, arrow, ROS_LOG.
  apply emits_no_bind; [ destruct conn; apply emits_no_pure | intros c ].
  apply emits_no_bind.
  { apply emits_no_same_trace. intros w. unfold isFailed.
    by destruct (heap w !! c). }
  intros f. apply emits_no_bind.
  - destruct f; [ apply emits_no_pure | ].
    apply emits_no_bind; [ by apply emits_no_same_trace | intros now ].
    apply emits_no_pure.
  - intros [|]; [ apply emits_no_pure | ].
    apply emits_no_bind; [ by apply emits_no_emit, Hp | intros _ ].
    apply emits_no_pure.
Qed.

(** [makeDbConnection] is the loop and the check after it, run in the
    world the getters leave: a world that differs from the first one by
    lookups and log lines only. *)
Lemma makeDbConnection_run fuel env nh host port timeout name authenticate
    user pwd w :
  ∃ s w0,
    resolve_settings nh host port timeout name authenticate user pwd w
    = (Val s, w0) ∧
    clock w0 = clock w ∧ allocated w0 = allocated w ∧ heap w0 = heap w ∧
    (∀ p, (∀ e, is_note e = true → p e = false) →
          count_events p (trace w0) = count_events p (trace w)) ∧
    makeDbConnection fuel env nh host port timeout name authenticate user pwd w
    = loop_and_check fuel env (settings_address s) s.1.1.2 s.1.2 s.2
        (settings_authenticate s) (clock w + float_ns timeout) None w0.
Proof.
  destruct (quiet_resolve_settings nh host port timeout name authenticate
              user pwd w) as ([[[[a b] n] u] p] & tr & Hs).
  exists (a, b, n, u, p), (add_trace tr w). repeat split; try done.
  - intros q Hq.
    pose proof (emits_no_resolve_settings q nh host port timeout name
                  authenticate user pwd Hq w) as Hno.
    by rewrite Hs in Hno.
  - unfold makeDbConnection. by rewrite (bind_Val _ _ _ _ _ Hs).
Qed.

(** ** A pass of the loop, case by case *)

Section PassCases.
Context (env : Env) (db_address db_name db_user db_pwd : string)
        (db_authenticate : bool) (end_ : Z).

Let loop fuel := retry_loop fuel env db_address db_name db_user db_pwd
                   db_authenticate end_.
Let block c := try_block env c db_address db_name db_user db_pwd
                 db_authenticate.

(** The time the driver takes on object [c] when nothing throws, and the
    state it leaves the object in. *)
Let cost c : Z :=
  Z.of_N (connect_cost (driver env c)) +
  (if db_authenticate then Z.of_N (auth_cost (driver env c)) else 0).
Let left_failed c : bool :=
  if db_authenticate
  then auth_failed (driver env c)
  else connect_failed (driver env c).

(** Neither [connect] nor [auth] throws: the block says whether the
    object is usable. *)
Lemma try_block_returns c w :
  connect_throws (driver env c) = None →
  auth_throws (driver env c) = None →
  ∃ w1,
    block c w = (Val (negb (left_failed c)), w1) ∧
    clock w1 = clock w + cost c ∧
    allocated w1 = allocated w ∧
    heap w1 !! c = Some {| server := db_address; failed := left_failed c |} ∧
    count_events is_sleep (trace w1) = count_events is_sleep (trace w) ∧
    count_events is_auth (trace w1)
    = (count_events is_auth (trace w) + if db_authenticate then 1 else 0)%nat.
Proof.
  intros Hct Hat.
  unfold block, cost, left_failed, try_block, connect, auth, isFailed,
    raise_if, ROS_LOG, emit, elapse, advance, store, set_failed, throw, bind,
    ret, add_trace; simpl.
  rewrite Hct; simpl.
  destruct db_authenticate; simpl; rewrite ?Hat; simpl;
    destruct (auth_ok (driver env c)), (auth_failed (driver env c)),
      (connect_failed (driver env c)); simpl;
    rewrite ?alter_insert_eq, ?lookup_insert_eq; simpl;
    (eexists; split; [ reflexivity | ]); simpl;
    rewrite ?lookup_insert_eq, !count_events_app;
    unfold count_events; simpl; repeat split; lia.
Qed.

(** A pass in which nothing throws.  When the object is usable the loop
    is left with it; when it is failed the loop goes on at once, without
    a sleep. *)
Lemma pass_returns fuel conn w :
  ros_ok env (allocated w) = true →
  clock w < end_ →
  connect_throws (driver env (allocated w)) = None →
  auth_throws (driver env (allocated w)) = None →
  ∃ w1,
    loop (S fuel) conn w
    = (if left_failed (allocated w)
       then loop fuel (Some (allocated w)) w1
       else (Val (Some (allocated w)), w1)) ∧
    clock w1 = clock w + cost (allocated w) ∧
    allocated w1 = S (allocated w) ∧
    heap w1 !! allocated w
    = Some {| server := db_address; failed := left_failed (allocated w) |} ∧
    count_events is_sleep (trace w1) = count_events is_sleep (trace w).
Proof.
  intros Hok Hearly Hct Hat.
  destruct (try_block_returns (allocated w)
              (new_DBClientConnection w).2 Hct Hat)
    as (w1 & Hblock & Hc & Ha & Hh & Hs & _).
  exists w1. split; [ | repeat split; try done ].
  - unfold loop. rewrite retry_loop_go by done.
    rewrite (bind_Val _ _ _ _ _ (new_DBClientConnection_eq w)).
    unfold bind at 1, catch_ConnectException.
    unfold block in Hblock. simpl in Hblock. rewrite Hblock.
    by destruct (left_failed (allocated w)).
  - rewrite Hs. simpl. rewrite count_events_app.
    unfold count_events at 2; simpl. lia.
Qed.

(** A pass in which [connect] throws another exception than
    [ConnectException]: the loop is left by that exception. *)
Lemma pass_throws fuel conn w code :
  ros_ok env (allocated w) = true →
  clock w < end_ →
  connect_throws (driver env (allocated w)) = Some (DBException code) →
  ∃ w1,
    loop (S fuel) conn w = (Exc (Mongo (DBException code)), w1) ∧
    allocated w1 = S (allocated w) ∧
    count_events is_sleep (trace w1) = count_events is_sleep (trace w).
Proof.
  intros Hok Hearly Hct. eexists. split.
  - unfold loop. rewrite retry_loop_go by done.
    rewrite (bind_Val _ _ _ _ _ (new_DBClientConnection_eq w)).
    apply bind_Exc. unfold catch_ConnectException.
    by rewrite (try_block_connect_throws _ _ _ _ _ _ _ _ _ Hct).
  - simpl. split; [ done | ]. rewrite !count_events_app.
    unfold count_events; simpl. lia.
Qed.

(** A pass in which [connect] throws [ConnectException]. *)
Lemma pass_catches fuel conn w :
  ros_ok env (allocated w) = true →
  clock w < end_ →
  connect_throws (driver env (allocated w)) = Some ConnectException →
  ∃ w1,
    loop (S fuel) conn w = loop fuel (Some (allocated w)) w1 ∧
    clock w1
    = clock w + Z.of_N (connect_cost (driver env (allocated w))) + second ∧
    allocated w1 = S (allocated w) ∧
    heap w1 !! allocated w
    = Some {| server := db_address;
              failed := connect_failed (driver env (allocated w)) |} ∧
    count_events is_sleep (trace w1)
    = S (count_events is_sleep (trace w)).
Proof.
  intros Hok Hearly Hct. eexists. split.
  - unfold loop. rewrite retry_loop_go by done.
    rewrite (bind_Val _ _ _ _ _ (new_DBClientConnection_eq w)).
    rewrite (bind_Val _ _ _ _ _
               (body_catches _ _ _ _ _ _ _ _ _
                  (try_block_connect_throws _ _ _ _ _ _ _ _ _ Hct))).
    reflexivity.
  - simpl. rewrite lookup_insert_eq, !count_events_app.
    unfold count_events; simpl. repeat split; lia.
Qed.
End PassCases.

(** ** A server that answers *)

(** X3.  The process runs, the timeout is positive, and on the first
    connection object neither [connect] nor [auth] throws, the object is
    not left failed, and the two calls together take no longer than the
    timeout.  Then [makeDbConnection] returns the handle of that object
    after one pass, without a sleep, and the clock has moved by no more
    than the two calls took. *)
Theorem reachable_returns_at_first_attempt fuel env nh host port timeout name
    authenticate user pwd w :
  let c := allocated w in
  let a := driver env c in
  ros_ok env c = true →
  connect_throws a = None →
  auth_throws a = None →
  connect_failed a = false →
  auth_failed a = false →
  0 < float_ns timeout →
  Z.of_N (connect_cost a) + Z.of_N (auth_cost a) ≤ float_ns timeout →
  ∃ w',
    makeDbConnection (S fuel) env nh host port timeout name authenticate user
      pwd w = (Val c, w') ∧
    allocated w' = S c ∧
    clock w' ≤ clock w + Z.of_N (connect_cost a) + Z.of_N (auth_cost a) ∧
    count_events is_sleep (trace w') = count_events is_sleep (trace w).
Proof.
  intros c a Hok Hct Hat Hcf Haf Hpos Hcost.
  destruct (makeDbConnection_run (S fuel) env nh host port timeout name
              authenticate user pwd w)
    as (s & w0 & _ & Hc0 & Ha0 & _ & Hn0 & ->).
  destruct (pass_returns env (settings_address s) s.1.1.2 s.1.2 s.2
              (settings_authenticate s) (clock w + float_ns timeout) fuel
              None w0) as (w1 & Hloop & Hc1 & Ha1 & Hh1 & Hs1);
    rewrite ?Ha0; try done; [ lia | ].
  rewrite Ha0 in *. fold c a in Hloop, Hc1, Ha1, Hh1.
  assert ((if settings_authenticate s then auth_failed a else connect_failed a)
          = false) as Hleft by (by destruct (settings_authenticate s)).
  rewrite Hleft in Hloop, Hh1.
  pose proof (N2Z.is_nonneg (auth_cost a)).
  assert (clock w1 ≤ clock w + Z.of_N (connect_cost a) + Z.of_N (auth_cost a))
    as Hclock by (destruct (settings_authenticate s); lia).
  unfold loop_and_check. rewrite (bind_Val _ _ _ _ _ Hloop).
  rewrite (after_loop_Some _ _ _ _ Hh1). simpl.
  rewrite bool_decide_eq_false_2 by lia.
  eexists. split; [ reflexivity | ]. simpl. repeat split; try done.
  rewrite count_events_app, Hs1, (Hn0 is_sleep) by (by intros []).
  unfold count_events at 2; simpl. lia.
Qed.

Lemma reachable_returns_at_first_attempt_witness :
  ∃ w',
    makeDbConnection 1 (running (λ _, reachable)) ∅ "" 0 (seconds 2) "" false
      "" "" (boot 0) = (Val 0%nat, w') ∧
    allocated w' = 1%nat ∧
    clock w' ≤ clock (boot 0) + Z.of_N (connect_cost reachable)
               + Z.of_N (auth_cost reachable) ∧
    count_events is_sleep (trace w') = count_events is_sleep (trace (boot 0)).
Proof.
  apply (reachable_returns_at_first_attempt 0 (running (λ _, reachable)) ∅ ""
           0 (seconds 2) "" false "" "" (boot 0)); by vm_compute.
Defined.

(** X4.  A pass in which neither [connect] nor [auth] throws and the
    connection object is left failed: the loop goes back to its test at
    once.  Nothing is slept; the clock has moved only by what the driver
    took. *)
Theorem failed_object_is_retried_at_once fuel env db_address db_name db_user
    db_pwd (db_authenticate : bool) end_ conn w :
  let c := allocated w in
  let a := driver env c in
  ros_ok env c = true →
  clock w < end_ →
  connect_throws a = None →
  auth_throws a = None →
  (if db_authenticate then auth_failed a else connect_failed a) = true →
  ∃ w1,
    retry_loop (S fuel) env db_address db_name db_user db_pwd db_authenticate
      end_ conn w
    = retry_loop fuel env db_address db_name db_user db_pwd db_authenticate
        end_ (Some c) w1 ∧
    clock w1
    = clock w + Z.of_N (connect_cost a) +
      (if db_authenticate then Z.of_N (auth_cost a) else 0) ∧
    allocated w1 = S c ∧
    count_events is_sleep (trace w1) = count_events is_sleep (trace w).
Proof.
  intros c a Hok Hearly Hct Hat Hfailed.
  destruct (pass_returns env db_address db_name db_user db_pwd
              db_authenticate end_ fuel conn w Hok Hearly Hct Hat)
    as (w1 & Hloop & Hc1 & Ha1 & _ & Hs1).
  fold c a in Hloop, Hc1. rewrite Hfailed in Hloop.
  exists w1. repeat split; try done. lia.
Qed.

Lemma failed_object_is_retried_at_once_witness :
  let env := running (λ _, {| connect_cost := 5; connect_throws := None;
                              connect_failed := true; auth_cost := 0;
                              auth_throws := None; auth_ok := true;
                              auth_err := ""; auth_failed := true |}) in
  ∃ w1,
    retry_loop 2 env "h:1" "" "" "" false second None (boot 0)
    = retry_loop 1 env "h:1" "" "" "" false second (Some 0%nat) w1 ∧
    clock w1 = clock (boot 0) + Z.of_N (connect_cost (driver env 0)) + 0 ∧
    allocated w1 = 1%nat ∧
    count_events is_sleep (trace w1) = count_events is_sleep (trace (boot 0)).
Proof.
  intros env.
  apply (failed_object_is_retried_at_once 1 env "h:1" "" "" "" false second
           None (boot 0)); by vm_compute.
Defined.

(** ** Exceptions that are not caught *)

(** X5.  When [connect] throws an exception of the driver that is not a
    [ConnectException], [makeDbConnection] ends by that exception in the
    first pass: it is not caught, nothing is slept, nothing is retried
    and no [DbConnectException] is raised in its place. *)
Theorem driver_exception_escapes fuel env nh host port timeout name
    authenticate user pwd w code :
  ros_ok env (allocated w) = true →
  0 < float_ns timeout →
  connect_throws (driver env (allocated w)) = Some (DBException code) →
  ∃ w',
    makeDbConnection (S fuel) env nh host port timeout name authenticate user
      pwd w = (Exc (Mongo (DBException code)), w') ∧
    allocated w' = S (allocated w) ∧
    count_events is_sleep (trace w') = count_events is_sleep (trace w).
Proof.
  intros Hok Hpos Hct.
  destruct (makeDbConnection_run (S fuel) env nh host port timeout name
              authenticate user pwd w)
    as (s & w0 & _ & Hc0 & Ha0 & _ & Hn0 & ->).
  destruct (pass_throws env (settings_address s) s.1.1.2 s.1.2 s.2
              (settings_authenticate s) (clock w + float_ns timeout) fuel
              None w0 code) as (w1 & Hloop & Ha1 & Hs1);
    rewrite ?Ha0; try done; [ lia | ].
  exists w1. unfold loop_and_check. rewrite (bind_Exc _ _ _ _ _ Hloop).
  repeat split; [ congruence | ].
  by rewrite Hs1, (Hn0 is_sleep) by (by intros []).
Qed.

Lemma driver_exception_escapes_witness :
  let env := running (λ _, {| connect_cost := 5;
                              connect_throws := Some (DBException 9001);
                              connect_failed := true; auth_cost := 0;
                              auth_throws := None; auth_ok := true;
                              auth_err := ""; auth_failed := true |}) in
  ∃ w',
    makeDbConnection 1 env ∅ "" 0 (seconds 2) "" false "" "" (boot 0)
    = (Exc (Mongo (DBException 9001)), w') ∧
    allocated w' = S (allocated (boot 0)) ∧
    count_events is_sleep (trace w') = count_events is_sleep (trace (boot 0)).
Proof.
  intros env.
  apply (driver_exception_escapes 0 env ∅ "" 0 (seconds 2) "" false "" ""
           (boot 0) 9001); by vm_compute.
Defined.

(** ** The process is shut down *)

(** X6.  [connect] throws [ConnectException] in the first pass and
    [ros::ok()] is false at the next loop test.  The loop is left after
    that one pass and the second of sleep, whatever is left of the
    timeout.  If the object was left failed, or the deadline has passed,
    [DbConnectException] is raised; otherwise the handle of the object
    whose [connect] threw is returned. *)
Theorem shutdown_after_refused_connect fuel env nh host port timeout name
    authenticate user pwd w :
  let c := allocated w in
  let a := driver env c in
  ros_ok env c = true →
  ros_ok env (S c) = false →
  0 < float_ns timeout →
  connect_throws a = Some ConnectException →
  ∃ w',
    makeDbConnection (S (S fuel)) env nh host port timeout name authenticate
      user pwd w
    = (if connect_failed a
          || bool_decide (Z.of_N (connect_cost a) + second > float_ns timeout)
       then Exc DbConnectException
       else Val c, w') ∧
    clock w' = clock w + Z.of_N (connect_cost a) + second ∧
    allocated w' = S c.
Proof.
  intros c a Hok Hdown Hpos Hct.
  destruct (makeDbConnection_run (S (S fuel)) env nh host port timeout name
              authenticate user pwd w)
    as (s & w0 & _ & Hc0 & Ha0 & _ & _ & ->).
  destruct (pass_catches env (settings_address s) s.1.1.2 s.1.2 s.2
              (settings_authenticate s) (clock w + float_ns timeout) (S fuel)
              None w0) as (w1 & Hloop & Hc1 & Ha1 & Hh1 & _);
    rewrite ?Ha0; try done; [ lia | ].
  rewrite Ha0 in *. fold c a in Hc1, Ha1, Hh1.
  rewrite (retry_loop_stop env _ _ _ _ _ _ fuel _ w1) in Hloop
    by (left; by rewrite Ha1).
  unfold loop_and_check. rewrite (bind_Val _ _ _ _ _ Hloop).
  rewrite (after_loop_Some _ _ _ _ Hh1). simpl.
  assert (bool_decide (clock w1 > clock w + float_ns timeout)
          = bool_decide (Z.of_N (connect_cost a) + second > float_ns timeout))
    as -> by (apply bool_decide_ext; lia).
  destruct (connect_failed a || bool_decide _);
    eexists; (split; [ reflexivity | ]); simpl; split; (done || lia).
Qed.

Lemma shutdown_after_refused_connect_witness :
  let env := {| ros_ok := λ k, bool_decide (k = 0%nat);
                driver := λ _, unreachable;
                global_params := ∅; documents := ∅ |} in
  ∃ w',
    makeDbConnection 2 env ∅ "" 0 (seconds 60) "" false "" "" (boot 0)
    = (if connect_failed (driver env 0)
          || bool_decide (Z.of_N (connect_cost (driver env 0)) + second
                          > float_ns (seconds 60))
       then Exc DbConnectException
       else Val 0%nat, w') ∧
    clock w' = clock (boot 0) + Z.of_N (connect_cost (driver env 0)) + second ∧
    allocated w' = 1%nat.
Proof.
  intros env.
  apply (shutdown_after_refused_connect 0 env ∅ "" 0 (seconds 60) "" false ""
           "" (boot 0)); by vm_compute.
Defined.

(** ** The loop ends *)

Section Termination.
Context (env : Env) (db_address db_name db_user db_pwd : string)
        (db_authenticate : bool) (end_ : Z) (dmin : Z).

(** Every [connect] takes at least [dmin] nanoseconds, and [dmin] is not
    nothing. *)
Hypothesis Hdmin : 0 < dmin.
Hypothesis Hcost : ∀ c, dmin ≤ Z.of_N (connect_cost (driver env c)).

Let loop fuel := retry_loop fuel env db_address db_name db_user db_pwd
                   db_authenticate end_.
Let body c := catch_ConnectException
                (try_block env c db_address db_name db_user db_pwd
                   db_authenticate)
                (Duration_sleep second ;; ret false).

(** The body of the loop takes at least the time of its [connect]. *)
Lemma body_takes_time c w :
  clock w + Z.of_N (connect_cost (driver env c)) ≤ clock (body c w).2.
Proof.
  unfold body, catch_ConnectException, Duration_sleep, try_block, connect,
    auth, isFailed, raise_if, ROS_LOG, emit, elapse, advance, store,
    set_failed, throw, bind, ret, second; simpl.
  destruct (driver env c) as [cc ct cf ac at_ ao ae af]; simpl.
  destruct ct as [[|code]|], db_authenticate, at_ as [[|code']|], ao, cf, af;
    simpl; rewrite ?alter_insert_eq, ?lookup_insert_eq; simpl; lia.
Qed.

(** [n] passes are enough for a time of [n] times [dmin]: with fuel for one
    more loop test the loop has ended, after at most [n] passes. *)
Lemma retry_loop_finishes n : ∀ fuel conn w,
  end_ - clock w ≤ Z.of_nat n * dmin →
  (n < fuel)%nat →
  (loop fuel conn w).1 ≠ Unfinished ∧
  (allocated (loop fuel conn w).2 ≤ allocated w + n)%nat.
Proof.
  induction n as [|n IH]; intros fuel conn w Hn Hfuel;
    (destruct fuel as [|fuel]; [ lia | ]);
    destruct (retry_loop_cases env end_ w) as [Hstop | [Hok Hearly]];
    try (unfold loop; rewrite retry_loop_stop by done; simpl;
         split; [ done | lia ]);
    [ lia | ].
  unfold loop. rewrite retry_loop_go by done.
  rewrite (bind_Val _ _ _ _ _ (new_DBClientConnection_eq w)).
  set (w0 := {| clock := clock w; allocated := S (allocated w);
                heap := _; trace := _ |}).
  pose proof (body_takes_time (allocated w) w0) as Htime.
  destruct (body_spec env db_address db_name db_user db_pwd db_authenticate
              (allocated w) w0) as (r & w1 & o & Hb & Ha & _ & _ & _ & Hr).
  fold (body (allocated w)) in Hb. rewrite Hb in Htime. simpl in Htime, Ha.
  destruct r as [[|] | [[|code]|] | |]; try done.
  - rewrite (bind_Val _ _ _ _ _ Hb). simpl. split; [ done | lia ].
  - rewrite (bind_Val _ _ _ _ _ Hb).
    destruct (IH fuel (Some (allocated w)) w1) as [Hfin Hpasses];
      [ specialize (Hcost (allocated w)); lia | lia | ].
    split; [ done | ]. fold (loop fuel). lia.
  - rewrite (bind_Exc _ _ _ _ _ Hb). simpl. split; [ done | lia ].
Qed.
End Termination.

Lemma after_loop_finishes end_ conn w : (after_loop end_ conn w).1 ≠ Unfinished.
Proof.
  destruct conn as [c|]; [ | by rewrite after_loop_None ].
  destruct (heap w !! c) as [o|] eqn:Ho;
    [ | by rewrite after_loop_dangling ].
  rewrite (after_loop_Some _ _ _ _ Ho). by destruct (_ || _).
Qed.

Lemma after_loop_allocated end_ conn w :
  allocated (after_loop end_ conn w).2 = allocated w.
Proof.
  destruct conn as [c|]; [ | by rewrite after_loop_None ].
  destruct (heap w !! c) as [o|] eqn:Ho;
    [ | by rewrite after_loop_dangling ].
  rewrite (after_loop_Some _ _ _ _ Ho). by destruct (_ || _).
Qed.

(** X7.  When every [connect] takes at least [dmin] nanoseconds, with [dmin]
    positive, and the timeout is no longer than [n] times [dmin], then
    [makeDbConnection] ends within [n + 1] loop tests, whatever the
    driver and the process flag do, and it creates at most [n]
    connection objects. *)
Theorem makeDbConnection_finishes fuel env nh host port timeout name
    authenticate user pwd w dmin n :
  0 < dmin →
  (∀ c, dmin ≤ Z.of_N (connect_cost (driver env c))) →
  float_ns timeout ≤ Z.of_nat n * dmin →
  (n < fuel)%nat →
  let r := makeDbConnection fuel env nh host port timeout name authenticate
             user pwd w in
  r.1 ≠ Unfinished ∧ (allocated r.2 ≤ allocated w + n)%nat.
Proof.
  intros Hdmin Hcost Htimeout Hfuel.
  destruct (makeDbConnection_run fuel env nh host port timeout name
              authenticate user pwd w)
    as (s & w0 & _ & Hc0 & Ha0 & _ & _ & ->).
  destruct (retry_loop_finishes env (settings_address s) s.1.1.2 s.1.2 s.2
              (settings_authenticate s) (clock w + float_ns timeout) dmin Hdmin
              Hcost n fuel None w0) as [Hfin Hpasses]; [ lia | done | ].
  simpl. unfold loop_and_check, bind.
  destruct (retry_loop _ _ _ _ _ _ _ _ _ _) as [[conn|e|u|] w1];
    simpl in *; try (split; [ done | lia ]).
  split; [ apply after_loop_finishes | ].
  rewrite after_loop_allocated. lia.
Qed.

Lemma makeDbConnection_finishes_witness :
  let env := running (λ _, refusing 500000000) in
  let r := makeDbConnection 5 env ∅ "" 0 (seconds 2) "" false "" "" (boot 0) in
  r.1 ≠ Unfinished ∧ (allocated r.2 ≤ allocated (boot 0) + 4)%nat.
Proof.
  intros env.
  apply (makeDbConnection_finishes 5 env ∅ "" 0 (seconds 2) "" false "" ""
           (boot 0) 500000000 4).
  - lia.
  - intros c. simpl. lia.
  - vm_compute. discriminate.
  - lia.
Defined.

(** ** The handle that is returned *)

Section LastObject.
Context (env : Env) (db_address db_name db_user db_pwd : string)
        (db_authenticate : bool) (end_ : Z).

Let loop fuel := retry_loop fuel env db_address db_name db_user db_pwd
                   db_authenticate end_.

(** When the loop is left in the ordinary way after at least one pass,
    the pointer is on the object created last, and that object was told
    to connect to the address of the loop. *)
Lemma retry_loop_last_object fuel : ∀ conn w conn' w',
  loop fuel conn w = (Val conn', w') →
  (conn' = conn ∧ w' = w) ∨
  (∃ c o, conn' = Some c ∧ allocated w' = S c ∧
          heap w' !! c = Some o ∧ server o = db_address).
Proof.
  induction fuel as [|fuel IH]; intros conn w conn' w' Hloop; [ done | ].
  destruct (retry_loop_cases env end_ w) as [Hstop | [Hok Hearly]].
  { unfold loop in Hloop. rewrite retry_loop_stop in Hloop by done.
    left. by injection Hloop as <- <-. }
  unfold loop in Hloop. rewrite retry_loop_go in Hloop by done.
  rewrite (bind_Val _ _ _ _ _ (new_DBClientConnection_eq w)) in Hloop.
  apply bind_Val_inv in Hloop as (brk & w1 & Hb & Hrest).
  destruct (body_spec env db_address db_name db_user db_pwd db_authenticate
              (allocated w)
              {| clock := clock w; allocated := S (allocated w);
                 heap := <[allocated w := {| server := ""; failed := false |}]>
                           (heap w);
                 trace := trace w ++ [NewConnection (allocated w)] |})
    as (r & w1' & o & Hb' & Ha & Hh & Hs & _).
  rewrite Hb in Hb'. injection Hb' as <- <-. simpl in Ha.
  assert (heap w1 !! allocated w = Some o) as Ho
    by (by rewrite Hh, lookup_insert_eq).
  right. destruct brk.
  - injection Hrest as <- <-. by exists (allocated w), o.
  - apply IH in Hrest as [[-> ->] | Hlast]; [ | done ].
    by exists (allocated w), o.
Qed.
End LastObject.

(** X8.  A handle that [makeDbConnection] returns designates the
    connection object created last.  That object was told to connect to
    the address the settings resolve to and is not failed, and the clock
    is not later than the deadline. *)
Theorem returned_handle_is_last_object fuel env nh host port timeout name
    authenticate user pwd w c w' :
  makeDbConnection fuel env nh host port timeout name authenticate user pwd w
  = (Val c, w') →
  ∃ s,
    (resolve_settings nh host port timeout name authenticate user pwd w).1
    = Val s ∧
    allocated w' = S c ∧
    heap w' !! c = Some {| server := settings_address s; failed := false |} ∧
    clock w' ≤ clock w + float_ns timeout.
Proof.
  destruct (makeDbConnection_run fuel env nh host port timeout name
              authenticate user pwd w)
    as (s & w0 & Hs & Hc0 & Ha0 & Hh0 & _ & ->).
  intros Hrun. exists s. rewrite Hs. split; [ done | ].
  apply bind_Val_inv in Hrun as (conn & w1 & Hloop & Hafter).
  apply retry_loop_last_object in Hloop
    as [[-> ->] | (c1 & o & -> & Ha1 & Ho & Hserver)];
    [ by rewrite after_loop_None in Hafter | ].
  rewrite (after_loop_Some _ _ _ _ Ho) in Hafter.
  destruct (failed o) eqn:Hfailed; [ done | ]. simpl in Hafter.
  case_bool_decide as Hlate; [ done | ].
  injection Hafter as <- <-. simpl. repeat split; [ done | | lia ].
  rewrite Ho. destruct o; simpl in *. by subst.
Qed.

Lemma returned_handle_is_last_object_witness :
  ∃ s,
    (resolve_settings ∅ "" 0 (seconds 2) "" false "" "" (boot 0)).1 = Val s ∧
    allocated (makeDbConnection 1 (running (λ _, reachable)) ∅ "" 0
                 (seconds 2) "" false "" "" (boot 0)).2 = 1%nat ∧
    heap (makeDbConnection 1 (running (λ _, reachable)) ∅ "" 0
            (seconds 2) "" false "" "" (boot 0)).2 !! 0%nat
    = Some {| server := settings_address s; failed := false |} ∧
    clock (makeDbConnection 1 (running (λ _, reachable)) ∅ "" 0
             (seconds 2) "" false "" "" (boot 0)).2
    ≤ clock (boot 0) + float_ns (seconds 2).
Proof.
  apply (returned_handle_is_last_object 1 (running (λ _, reachable)) ∅ "" 0
           (seconds 2) "" false "" "" (boot 0) 0%nat).
  by vm_compute.
Defined.

(** ** Whether [auth] is called *)

Lemma grows_pure {A} (r : outcome A) : grows (λ w, (r, w)).
Proof. by intros p w. Qed.

Lemma grows_same_trace {A} (m : M A) :
  (∀ w, trace (m w).2 = trace w) → grows m.
Proof. intros Hm p w. by rewrite Hm. Qed.

Lemma grows_emit e : grows (emit e).
Proof. intros p w. unfold emit; simpl. rewrite count_events_app. lia. Qed.

Lemma grows_bind {A B} (m : M A) (k : A → M B) :
  grows m → (∀ a, grows (k a)) → grows (bind m k).
Proof.
  intros Hm Hk p w. specialize (Hm p w). unfold bind.
  destruct (m w) as [[a|e|u|] w1]; simpl in *; [ | done .. ].
  specialize (Hk a p w1). lia.
Qed.

Lemma grows_catch {A} (m h : M A) :
  grows m → grows h → grows (catch_ConnectException m h).
Proof.
  intros Hm Hh p w. specialize (Hm p w). unfold catch_ConnectException.
  destruct (m w) as [[a | [[|code]|] | u |] w1]; simpl in *; [ done | | done .. ].
  specialize (Hh p w1). lia.
Qed.

Lemma grows_isFailed c : grows (isFailed c).
Proof.
  apply grows_same_trace. intros w. unfold isFailed. by destruct (heap w !! c).
Qed.

Lemma grows_raise_if {A} e (a : A) : grows (raise_if e a).
Proof. destruct e; apply grows_pure. Qed.

Lemma grows_try_block env c a n u p b : grows (try_block env c a n u p b).
Proof.
  unfold try_block, connect, auth, ROS_LOG.
  apply grows_bind; [ apply grows_emit | intros _ ].
  apply grows_bind; [ | intros _ ].
  { apply grows_bind; [ apply grows_emit | intros _ ].
    apply grows_bind; [ by apply grows_same_trace | intros _ ].
    apply grows_bind; [ by apply grows_same_trace | intros _ ].
    apply grows_raise_if. }
  apply grows_bind; [ | intros _ ].
  { destruct b; [ | apply grows_pure ].
    apply grows_bind; [ apply grows_emit | intros _ ].
    apply grows_bind; [ | intros r ].
    - apply grows_bind; [ apply grows_emit | intros _ ].
      apply grows_bind; [ by apply grows_same_trace | intros _ ].
      apply grows_bind; [ by apply grows_same_trace | intros _ ].
      apply grows_raise_if.
    - destruct (negb r.1); [ apply grows_emit | apply grows_pure ]. }
  apply grows_bind; [ apply grows_isFailed | intros f ].
  destruct (negb f); [ | apply grows_pure ].
  apply grows_bind; [ apply grows_emit | intros _; apply grows_pure ].
Qed.

Lemma grows_sleep ns : grows (Duration_sleep ns ;; ret false).
Proof.
  apply grows_bind; [ | intros _; apply grows_pure ].
  apply grows_bind; [ apply grows_emit | intros _ ].
  by apply grows_same_trace.
Qed.

Lemma grows_retry_loop env a n u p b end_ fuel : ∀ conn,
  grows (retry_loop fuel env a n u p b end_ conn).
Proof.
  induction fuel as [|fuel IH]; intros conn; [ apply grows_pure | ].
  simpl. apply grows_bind.
  { apply grows_same_trace. intros w.
    unfold loop_test, ros_ok_call, WallTime_now, bind, ret.
    by destruct (ros_ok env (allocated w)). }
  intros go. destruct go; [ | apply grows_pure ].
  apply grows_bind.
  { intros q w. unfold new_DBClientConnection; simpl.
    rewrite count_events_app. lia. }
  intros c. apply grows_bind.
  - apply grows_catch; [ apply grows_try_block | apply grows_sleep ].
  - intros brk. destruct brk; [ apply grows_pure | apply IH ].
Qed.

Lemma grows_after_loop end_ conn : grows (after_loop end_ conn).
Proof.
  unfold after_loop, arrow, ROS_LOG.
  apply grows_bind; [ destruct conn; apply grows_pure | intros c ].
  apply grows_bind; [ apply grows_isFailed | intros f ].
  apply grows_bind.
  - destruct f; [ apply grows_pure | ].
    apply grows_bind; [ by apply grows_same_trace | intros; apply grows_pure ].
  - intros [|]; [ apply grows_pure | ].
    apply grows_bind; [ apply grows_emit | intros; apply grows_pure ].
Qed.

(** What the getters make of [authenticate] is what the loop is run
    with. *)
Lemma settings_authenticate_resolved nh host port timeout name authenticate
    user pwd w s w0 :
  resolve_settings nh host port timeout name authenticate user pwd w
  = (Val s, w0) →
  (getAuthenticate nh authenticate w).1 = Val (settings_authenticate s).
Proof.
  intros Hs.
  pose proof (resolve_settings_result nh host port timeout name authenticate
                user pwd w) as Hr.
  rewrite Hs in Hr. simpl in Hr.
  destruct (getHost nh host w).1; try done.
  destruct (getPort nh (int_of_unsigned port) w).1; try done.
  destruct (getAuthenticate nh authenticate w).1; try done.
  destruct (getName nh name w).1; try done.
  destruct (getUser nh user w).1; try done.
  destruct (getPwd nh pwd w).1; try done.
  by injection Hr as ->.
Qed.

Section AuthCalls.
Context (env : Env) (db_address db_name db_user db_pwd : string) (end_ : Z).

(** Without authentication the [try] block does not call [auth]. *)
Lemma emits_no_auth_try_block c :
  emits_no is_auth (try_block env c db_address db_name db_user db_pwd false).
Proof.
  unfold try_block, connect, ROS_LOG.
  apply emits_no_bind; [ by apply emits_no_emit | intros _ ].
  apply emits_no_bind; [ | intros _ ].
  { apply emits_no_bind; [ by apply emits_no_emit | intros _ ].
    apply emits_no_bind; [ by apply emits_no_same_trace | intros _ ].
    apply emits_no_bind; [ by apply emits_no_same_trace | intros _ ].
    unfold raise_if. destruct (connect_throws _); apply emits_no_pure. }
  apply emits_no_bind; [ apply emits_no_pure | intros _ ].
  apply emits_no_bind.
  { apply emits_no_same_trace. intros w. unfold isFailed.
    by destruct (heap w !! c). }
  intros f. destruct (negb f); [ | apply emits_no_pure ].
  apply emits_no_bind; [ by apply emits_no_emit | intros _ ].
  apply emits_no_pure.
Qed.

Lemma emits_no_auth_retry_loop fuel : ∀ conn,
  emits_no is_auth
    (retry_loop fuel env db_address db_name db_user db_pwd false end_ conn).
Proof.
  induction fuel as [|fuel IH]; intros conn; [ apply emits_no_pure | ].
  simpl. apply emits_no_bind.
  { apply emits_no_same_trace. intros w.
    unfold loop_test, ros_ok_call, WallTime_now, bind, ret.
    by destruct (ros_ok env (allocated w)). }
  intros go. destruct go; [ | apply emits_no_pure ].
  apply emits_no_bind.
  { intros w. unfold new_DBClientConnection; simpl.
    rewrite count_events_app. unfold count_events at 2; simpl. lia. }
  intros c. apply emits_no_bind.
  - apply emits_no_catch; [ apply emits_no_auth_try_block | ].
    unfold Duration_sleep.
    apply emits_no_bind; [ | intros _; apply emits_no_pure ].
    apply emits_no_bind; [ by apply emits_no_emit | intros _ ].
    by apply emits_no_same_trace.
  - intros brk. destruct brk; [ apply emits_no_pure | apply IH ].
Qed.

(** With authentication, once [connect] has returned, [auth] is called,
    whether it then throws or not. *)
Lemma try_block_calls_auth c w :
  connect_throws (driver env c) = None →
  count_events is_auth
    (trace (try_block env c db_address db_name db_user db_pwd true w).2)
  = S (count_events is_auth (trace w)).
Proof.
  intros Hct.
  unfold try_block, connect, auth, isFailed, raise_if, ROS_LOG, emit, elapse,
    advance, store, set_failed, throw, bind, ret, add_trace; simpl.
  rewrite Hct; simpl.
  destruct (auth_throws (driver env c)), (auth_ok (driver env c)),
    (auth_failed (driver env c)); simpl;
    rewrite ?alter_insert_eq, ?lookup_insert_eq; simpl;
    rewrite !count_events_app; unfold count_events; simpl; lia.
Qed.

(** What the [try] block has put on the trace is still there when the
    loop is left. *)
Lemma pass_keeps_block_trace b fuel conn w p :
  ros_ok env (allocated w) = true →
  clock w < end_ →
  (count_events p
     (trace (try_block env (allocated w) db_address db_name db_user db_pwd b
               (new_DBClientConnection w).2).2)
   ≤ count_events p
       (trace (retry_loop (S fuel) env db_address db_name db_user db_pwd b
                 end_ conn w).2))%nat.
Proof.
  intros Hok Hearly. rewrite retry_loop_go by done.
  rewrite (bind_Val _ _ _ _ _ (new_DBClientConnection_eq w)).
  unfold bind at 1, catch_ConnectException. simpl.
  destruct (try_block _ _ _ _ _ _ _ _) as [[brk | [[|code]|] | u |] w1];
    simpl; try apply Nat.le_refl.
  - destruct brk; [ apply Nat.le_refl | ]. apply grows_retry_loop.
  - etransitivity; [ apply (grows_sleep second p w1) | ].
    apply grows_retry_loop.
Qed.
End AuthCalls.

(** X9.  With the argument [authenticate] left at [false] and the
    parameter [warehouse_authenticate] stored as [false],
    [makeDbConnection] never calls [auth], however many passes the loop
    makes. *)
Theorem no_auth_when_configured_false fuel env (nh : NodeHandle) host port
    timeout name user pwd w :
  nh !! "warehouse_authenticate" = Some (XBool false) →
  count_events is_auth
    (trace (makeDbConnection fuel env nh host port timeout name false user pwd
              w).2)
  = count_events is_auth (trace w).
Proof.
  intros Hstored.
  destruct (makeDbConnection_run fuel env nh host port timeout name false
              user pwd w) as (s & w0 & Hs & _ & _ & _ & Hn0 & ->).
  apply settings_authenticate_resolved in Hs.
  unfold getAuthenticate in Hs. rewrite decide_True in Hs by done.
  rewrite getParam_result, Hstored in Hs. simpl in Hs.
  injection Hs as <-.
  rewrite <- (Hn0 is_auth) by (by intros []).
  unfold loop_and_check.
  apply (emits_no_bind is_auth);
    [ apply emits_no_auth_retry_loop
    | intros conn; apply emits_no_after_loop; by intros [] ].
Qed.

Lemma no_auth_when_configured_false_witness :
  let nh : NodeHandle := {[ "warehouse_authenticate" := XBool false ]} in
  count_events is_auth
    (trace (makeDbConnection 3 (running (λ _, unreachable)) nh "" 0
              (seconds 2) "" false "" "" (boot 0)).2)
  = count_events is_auth (trace (boot 0)).
Proof.
  intros nh.
  apply (no_auth_when_configured_false 3 (running (λ _, unreachable)) nh "" 0
           (seconds 2) "" "" "" (boot 0)).
  reflexivity.
Defined.

(** X10.  With the argument [authenticate] left at [false] and no
    parameter [warehouse_authenticate] stored, [makeDbConnection] calls
    [auth] all the same: as soon as a [connect] returns in the first
    pass, [auth] is called on that connection. *)
Theorem unset_authenticate_still_authenticates fuel env (nh : NodeHandle) host
    port timeout name user pwd w :
  nh !! "warehouse_authenticate" = None →
  ros_ok env (allocated w) = true →
  0 < float_ns timeout →
  connect_throws (driver env (allocated w)) = None →
  (count_events is_auth (trace w)
   < count_events is_auth
       (trace (makeDbConnection (S fuel) env nh host port timeout name false
                 user pwd w).2))%nat.
Proof.
  intros Hnone Hok Hpos Hct.
  destruct (makeDbConnection_run (S fuel) env nh host port timeout name false
              user pwd w) as (s & w0 & Hs & Hc0 & Ha0 & _ & Hn0 & ->).
  apply settings_authenticate_resolved in Hs.
  unfold getAuthenticate in Hs. rewrite decide_True in Hs by done.
  rewrite getParam_result, Hnone in Hs. simpl in Hs.
  injection Hs as <-.
  rewrite <- (Hn0 is_auth) by (by intros []).
  rewrite <- Ha0 in Hok, Hct.
  pose proof (pass_keeps_block_trace env (settings_address s) s.1.1.2 s.1.2
                s.2 (clock w + float_ns timeout) true fuel None w0 is_auth
                Hok ltac:(lia)) as Hkept.
  rewrite try_block_calls_auth in Hkept by done.
  unfold loop_and_check, bind.
  destruct (retry_loop _ _ _ _ _ _ _ _ _ _) as [[conn|e|u|] w1].
  all: simpl in Hkept; rewrite count_events_app in Hkept.
  all: unfold count_events at 2 in Hkept; simpl in *; try lia.
  pose proof (grows_after_loop (clock w + float_ns timeout) conn is_auth w1).
  lia.
Qed.

Lemma unset_authenticate_still_authenticates_witness :
  (count_events is_auth (trace (boot 0))
   < count_events is_auth
       (trace (makeDbConnection 1 (running (λ _, refusing 0)) ∅ "" 0
                 (seconds 2) "" false "" "" (boot 0)).2))%nat.
Proof.
  apply (unset_authenticate_still_authenticates 0 (running (λ _, refusing 0))
           ∅ "" 0 (seconds 2) "" "" "" (boot 0)); by vm_compute.
Defined.

(** ** Passes, connection objects and sleeps *)

Section Counts.
Context (env : Env) (db_address db_name db_user db_pwd : string)
        (db_authenticate : bool) (end_ : Z).

Let loop fuel := retry_loop fuel env db_address db_name db_user db_pwd
                   db_authenticate end_.
Let body c := catch_ConnectException
                (try_block env c db_address db_name db_user db_pwd
                   db_authenticate)
                (Duration_sleep second ;; ret false).

(** The body of the loop creates no object, calls [connect] once and
    sleeps at most once, for a second that the clock shows. *)
Lemma body_counts c w :
  allocated (body c w).2 = allocated w ∧
  count_events is_new (trace (body c w).2) = count_events is_new (trace w) ∧
  count_events is_connect (trace (body c w).2)
  = S (count_events is_connect (trace w)) ∧
  (count_events is_sleep (trace w) ≤ count_events is_sleep (trace (body c w).2)
   ≤ S (count_events is_sleep (trace w)))%nat ∧
  clock w + second * Z.of_nat (count_events is_sleep (trace (body c w).2))
  ≤ clock (body c w).2 + second * Z.of_nat (count_events is_sleep (trace w)).
Proof.
  unfold body, catch_ConnectException, Duration_sleep, try_block, connect,
    auth, isFailed, raise_if, ROS_LOG, emit, elapse, advance, store,
    set_failed, throw, bind, ret, add_trace, second; simpl.
  destruct (driver env c) as [cc ct cf ac at_ ao ae af]; simpl.
  destruct ct as [[|code]|], db_authenticate, at_ as [[|code']|], ao, cf, af;
    simpl; rewrite ?alter_insert_eq, ?lookup_insert_eq; simpl;
    rewrite !count_events_app; unfold count_events; simpl;
    repeat split; lia.
Qed.

Lemma retry_loop_counts fuel : ∀ conn w,
  let w' := (loop fuel conn w).2 in
  (allocated w ≤ allocated w')%nat ∧
  (count_events is_new (trace w') + allocated w
   = count_events is_new (trace w) + allocated w')%nat ∧
  (count_events is_connect (trace w') + allocated w
   = count_events is_connect (trace w) + allocated w')%nat ∧
  (count_events is_sleep (trace w') + allocated w
   ≤ count_events is_sleep (trace w) + allocated w')%nat ∧
  clock w + second * Z.of_nat (count_events is_sleep (trace w'))
  ≤ clock w' + second * Z.of_nat (count_events is_sleep (trace w)).
Proof.
  induction fuel as [|fuel IH]; intros conn w; [ simpl; lia | ].
  destruct (retry_loop_cases env end_ w) as [Hstop | [Hok Hearly]].
  { unfold loop. rewrite retry_loop_stop by done. simpl. lia. }
  unfold loop. rewrite retry_loop_go by done.
  rewrite (bind_Val _ _ _ _ _ (new_DBClientConnection_eq w)).
  set (w0 := {| clock := clock w; allocated := S (allocated w);
                heap := _; trace := _ |}).
  assert (count_events is_new (trace w0) = S (count_events is_new (trace w)) ∧
          count_events is_connect (trace w0)
          = count_events is_connect (trace w) ∧
          count_events is_sleep (trace w0) = count_events is_sleep (trace w))
    as (Hnew & Hconnect & Hsleep).
  { unfold w0; simpl. rewrite !count_events_app.
    unfold count_events; simpl. lia. }
  pose proof (body_counts (allocated w) w0) as (Ha & Hn & Hc & Hs & Ht).
  fold (body (allocated w)).
  destruct (body (allocated w) w0) as [[[|] | e | u |] w1] eqn:Hb;
    cbn [fst snd] in Ha, Hn, Hc, Hs, Ht;
    rewrite ?Hnew, ?Hconnect, ?Hsleep in Hn, Hc, Hs, Ht;
    change (allocated w0) with (S (allocated w)) in Ha;
    change (clock w0) with (clock w) in Ht.
  - rewrite (bind_Val _ _ _ _ _ Hb). cbn [fst snd ret]. lia.
  - rewrite (bind_Val _ _ _ _ _ Hb).
    specialize (IH (Some (allocated w)) w1). fold (loop fuel).
    cbn zeta in IH |- *. unfold second in *. lia.
  - rewrite (bind_Exc _ _ _ _ _ Hb). cbn [fst snd]. lia.
  - unfold bind. rewrite Hb. cbn [fst snd]. lia.
  - unfold bind. rewrite Hb. cbn [fst snd]. lia.
Qed.
End Counts.

(** X11.  However [makeDbConnection] ends, its trace and the number of
    connection objects agree: every object that was created was created
    once and [connect] was called on it once, there is at most one sleep
    for each object, and the clock has moved by at least the seconds
    slept. *)
Theorem one_connect_per_connection_object fuel env nh host port timeout name
    authenticate user pwd w :
  let w' := (makeDbConnection fuel env nh host port timeout name authenticate
               user pwd w).2 in
  (allocated w ≤ allocated w')%nat ∧
  (count_events is_new (trace w') + allocated w
   = count_events is_new (trace w) + allocated w')%nat ∧
  (count_events is_connect (trace w') + allocated w
   = count_events is_connect (trace w) + allocated w')%nat ∧
  (count_events is_sleep (trace w') + allocated w
   ≤ count_events is_sleep (trace w) + allocated w')%nat ∧
  clock w + second * Z.of_nat (count_events is_sleep (trace w'))
  ≤ clock w' + second * Z.of_nat (count_events is_sleep (trace w)).
Proof.
  destruct (makeDbConnection_run fuel env nh host port timeout name
              authenticate user pwd w)
    as (s & w0 & _ & Hc0 & Ha0 & _ & Hn0 & ->).
  pose proof (retry_loop_counts env (settings_address s) s.1.1.2 s.1.2 s.2
                (settings_authenticate s) (clock w + float_ns timeout) fuel
                None w0) as Hloop.
  rewrite (Hn0 is_new), (Hn0 is_connect), (Hn0 is_sleep), Hc0, Ha0 in Hloop
    by (by intros []).
  unfold loop_and_check, bind.
  destruct (retry_loop _ _ _ _ _ _ _ _ _ _) as [[conn|e|u|] w1];
    simpl in *; try done.
  pose proof (emits_no_after_loop is_new (clock w + float_ns timeout) conn
                ltac:(by intros []) w1) as ->.
  pose proof (emits_no_after_loop is_connect (clock w + float_ns timeout) conn
                ltac:(by intros []) w1) as ->.
  pose proof (emits_no_after_loop is_sleep (clock w + float_ns timeout) conn
                ltac:(by intros []) w1) as ->.
  rewrite after_loop_allocated.
  assert (clock (after_loop (clock w + float_ns timeout) conn w1).2 = clock w1)
    as ->; [ | done ].
  destruct conn as [c|]; [ | by rewrite after_loop_None ].
  destruct (heap w1 !! c) as [o|] eqn:Ho;
    [ | by rewrite after_loop_dangling ].
  rewrite (after_loop_Some _ _ _ _ Ho). by destruct (_ || _).
Qed.

(** ** A document without a type *)

Lemma messageType_result env conn db coll w :
  (messageType env conn db coll w).1
  = match List.find
            (λ obj, bool_decide (getField obj "name" = Some (BString coll)))
            (default [] (documents env !! (db +:+ ".ros_message_collections")))
    with
    | Some obj => Val (getStringField obj "type")
    | None => Exc (Mongo (DBException cursor_exhausted))
    end.
Proof.
  unfold messageType, query.
  unfold bind at 1. unfold bind at 2. unfold emit, ret at 1.
  unfold bind. rewrite cursor_next_head.
  rewrite (List.filter_ext _ _ (matches_name coll)), head_filter_find.
  by destruct (List.find _ _).
Qed.

(** X12.  The first document of the namespace whose ["name"] is the
    collection name decides, whatever comes after it.  When that document
    has no ["type"] that is a string, [messageType] returns the empty
    string: no exception tells this apart from a type that is empty. *)
Theorem messageType_without_string_type env conn db coll w pre obj post :
  documents env !! (db +:+ ".ros_message_collections")
  = Some (pre ++ obj :: post) →
  (∀ o, o ∈ pre → getField o "name" ≠ Some (BString coll)) →
  getField obj "name" = Some (BString coll) →
  (∀ t, getField obj "type" ≠ Some (BString t)) →
  (messageType env conn db coll w).1 = Val "".
Proof.
  intros Hdocs Hpre Hname Htype.
  rewrite messageType_result, Hdocs. simpl.
  rewrite (find_first _ pre post obj).
  - unfold getStringField.
    destruct (getField obj "type") as [[t|i|b]|]; try done.
    by destruct (Htype t).
  - intros o Ho. apply bool_decide_eq_false_2. by apply Hpre.
  - by apply bool_decide_eq_true_2.
Qed.

Lemma messageType_without_string_type_witness :
  let env := {| ros_ok := λ _, true; driver := λ _, reachable;
                global_params := ∅;
                documents :=
                  {[ "db.ros_message_collections" :=
                       [ [("name", BString "poses");
                          ("type", BString "geometry_msgs/Pose")] ]
                       ++ [("name", BString "scans"); ("type", BInt 7)]
                       :: [ [("name", BString "scans");
                             ("type", BString "sensor_msgs/LaserScan")] ] ]}
             |} in
  (messageType env 0 "db" "scans" (boot 0)).1 = Val "".
Proof.
  intros env.
  apply (messageType_without_string_type env 0%nat "db" "scans" (boot 0)
           [ [("name", BString "poses");
              ("type", BString "geometry_msgs/Pose")] ]
           [("name", BString "scans"); ("type", BInt 7)]
           [ [("name", BString "scans");
              ("type", BString "sensor_msgs/LaserScan")] ]).
  - reflexivity.
  - intros o Ho. apply list_elem_of_singleton in Ho as ->. by vm_compute.
  - reflexivity.
  - intros t. by vm_compute.
Defined.

(** ** dropDatabase and a server that is down *)

(** X13.  The process keeps running and every [connect] throws
    [ConnectException], leaves its object failed and takes at most
    [dcost] nanoseconds.  Then [dropDatabase] with a name alone holds its
    caller for the sixty seconds of its timeout and less than one more
    second and [dcost], raises [DbConnectException] and has sent no
    drop-database command. *)
Theorem dropDatabase_unreachable_drops_nothing fuel env d db w dcost :
  (∀ k, ros_ok env k = true) →
  (∀ c, connect_throws (driver env c) = Some ConnectException ∧
        connect_failed (driver env c) = true ∧
        Z.of_N (connect_cost (driver env c)) ≤ dcost) →
  ∃ w',
    dropDatabase (61 + fuel) env d db w = (Exc DbConnectException, w') ∧
    clock w + 60 * second ≤ clock w' < clock w + 61 * second + dcost ∧
    drops (trace w') = drops (trace w).
Proof.
  intros Hrunning Hrefused.
  pose proof (drops_nothing_makeDbConnection (61 + fuel) env
                (global_params env) "" 0 float_60 (default_name d)
                (default_authenticate d) (default_user d) (default_pwd d) w)
    as Hdrops.
  unfold dropDatabase, dropDatabase4.
  destruct (makeDbConnection_unfold (61 + fuel) env (global_params env) "" 0
              float_60 (default_name d) (default_authenticate d)
              (default_user d) (default_pwd d) w)
    as (a & b & n & u & p & tr & Hrun).
  rewrite Hrun in Hdrops.
  destruct (unreachable_loop env a n u p b (clock w + float_ns float_60) dcost
              Hrunning Hrefused 60 (60 + fuel) None (add_trace tr w))
    as (c & w' & Hloop & Hheap & Hclock & _).
  { simpl. unfold second. lia. }
  { simpl. unfold second. lia. }
  { lia. }
  assert ((conn <~ retry_loop (61 + fuel) env a n u p b
                     (clock w + float_ns float_60) None;
           after_loop (clock w + float_ns float_60) conn) (add_trace tr w)
          = (Exc DbConnectException, w')) as Hconnect.
  { rewrite (bind_Val _ _ _ _ _ Hloop).
    by rewrite (after_loop_Some _ _ _ _ Hheap). }
  rewrite Hconnect in Hrun, Hdrops.
  exists w'. rewrite (bind_Exc _ _ _ _ _ Hrun).
  split; [ done | ]. split; [ | done ].
  simpl in Hclock. unfold second in *. lia.
Qed.

Lemma dropDatabase_unreachable_drops_nothing_witness :
  let d := {| default_name := ""; default_authenticate := false;
              default_user := ""; default_pwd := "" |} in
  ∃ w',
    dropDatabase 61 (running (λ _, unreachable)) d "warehouse" (boot 0)
    = (Exc DbConnectException, w') ∧
    clock (boot 0) + 60 * second ≤ clock w'
      < clock (boot 0) + 61 * second + 0 ∧
    drops (trace w') = drops (trace (boot 0)).
Proof.
  intros d.
  apply (dropDatabase_unreachable_drops_nothing 0 (running (λ _, unreachable))
           d "warehouse" (boot 0) 0).
  - intros k. reflexivity.
  - intros c. simpl. repeat split. lia.
Defined.
